(** * A shallow embedding of stress-ng's pthread stressor (stress-pthread.c)

    The controlling thread [stress_pthread] and the worker body
    [stress_pthread_func] are modelled separately.  Every call into libc or
    the kernel (pthread_create, pthread_mutex_lock, syscall, ...) is an
    oracle supplied by an environment record, and every such call, every
    write of a shared variable and every diagnostic is recorded as an event
    in a trace.  The configuration modelled is Linux with [__NR_gettid],
    [__NR_get_robust_list], [__NR_set_robust_list], [__NR_tgkill], [SIGUSR2]
    and [HAVE_SETNS] all defined. *)

From Stdlib Require Import ZArith Lia List Bool String.
From stdpp Require Import base list.
Import ListNotations.
Open Scope Z_scope.

(** ** Constants *)

Definition EXIT_SUCCESS : Z := 0.
Definition EXIT_FAILURE : Z := 1.
Definition EAGAIN : Z := 11.
Definition ENOSYS : Z := 38.
Definition MIN_PTHREAD : Z := 1.
Definition MAX_PTHREAD : Z := 30000.
Definition DEFAULT_PTHREAD : Z := 1024.

(** uint64_t increment, with its wrap-around. *)
Definition u64_inc (x : Z) : Z := (x + 1) mod 2 ^ 64.

(** ** The controlling thread *)

(** Actions of the controlling thread, in program order. *)
Inductive event : Type :=
  | EResetFlag                  (* thread_terminate = false *)
  | EResetCount                 (* pthread_count = 0 *)
  | EClearSlots                 (* memset(&pthreads, 0, ...) *)
  | ECreate (slot : nat) (ret : Z)   (* pthread_create(&pthreads[slot].pthread, ...) *)
  | EIncCounter                 (* inc_counter(args) *)
  | EReadStop (v : bool)        (* read of g_keep_stressing_flag in the spawn loop *)
  | ELock (ret : Z)             (* pthread_mutex_lock(&mutex) *)
  | EUnlock (ret : Z)           (* pthread_mutex_unlock(&mutex) *)
  | EReadCount (v : Z)          (* read of pthread_count *)
  | ETgkill (slot : nat)        (* tgkill(pid, pthreads[slot].tid, SIGUSR2) *)
  | ESetFlag                    (* thread_terminate = true *)
  | EBroadcast (ret : Z)        (* pthread_cond_broadcast(&cond) *)
  | EJoin (slot : nat) (ret : Z)     (* pthread_join(pthreads[slot].pthread, NULL) *)
  | EFail (what : string)       (* pr_fail_errno(what, ret) *)
  | EKeepStressing (v : bool).  (* keep_stressing() at the bottom of the do-while *)

(** What the libc, the kernel, the workers and the harness answer during one
    iteration of the do-while loop.  Functions of a slot or poll index give
    the answer of the call made at that index. *)
Record iter_env : Type := {
  ie_create : nat -> Z;         (* pthread_create for slot i *)
  ie_keep : nat -> bool;        (* g_keep_stressing_flag after creating slot i *)
  ie_poll_lock : nat -> Z;      (* mutex lock in poll round j *)
  ie_count : nat -> Z;          (* pthread_count seen in poll round j *)
  ie_poll_unlock : nat -> Z;    (* mutex unlock in poll round j *)
  ie_lock : Z;                  (* mutex lock before the broadcast *)
  ie_tid : nat -> Z;            (* pthreads[j].tid as written by worker j *)
  ie_broadcast : Z;
  ie_unlock : Z;                (* mutex unlock after the broadcast *)
  ie_join : nat -> Z;           (* pthread_join of slot j *)
  ie_keep_end : bool            (* g_keep_stressing_flag read by keep_stressing() *)
}.

(** The variables of [stress_pthread] and the shared globals it writes. *)
Record estate : Type := {
  ok : bool;
  limited : Z;
  attempted : Z;
  counter : Z;                  (* *args->counter *)
  thread_terminate : bool
}.

Definition set_ok (b : bool) (s : estate) : estate :=
  {| ok := b; limited := limited s; attempted := attempted s;
     counter := counter s; thread_terminate := thread_terminate s |}.
Definition set_limited (l : Z) (s : estate) : estate :=
  {| ok := ok s; limited := l; attempted := attempted s;
     counter := counter s; thread_terminate := thread_terminate s |}.
Definition set_attempted (a : Z) (s : estate) : estate :=
  {| ok := ok s; limited := limited s; attempted := a;
     counter := counter s; thread_terminate := thread_terminate s |}.
Definition set_counter (c : Z) (s : estate) : estate :=
  {| ok := ok s; limited := limited s; attempted := attempted s;
     counter := c; thread_terminate := thread_terminate s |}.
Definition set_terminate (b : bool) (s : estate) : estate :=
  {| ok := ok s; limited := limited s; attempted := attempted s;
     counter := counter s; thread_terminate := b |}.

Section Engine.

Variable max_ops : Z.           (* args->max_ops, 0 meaning no budget *)
Variable pthread_max : nat.     (* the configured maximum *)

(** Modelled from the spec: [inc_counter] of stress-ng.h, which is not in
    src/: "for each successful spawn, increment the global op counter". *)
Definition inc_counter (s : estate) : estate := set_counter (u64_inc (counter s)) s.

(** The op-budget test of the spawn loop: [!args->max_ops || *args->counter < args->max_ops]. *)
Definition budget_left (s : estate) : bool :=
  (max_ops =? 0) || (counter s <? max_ops).

(** Lines 240-259.  [n] is [pthread_max - i]; the result is the final [i]. *)
Fixpoint spawn_loop (e : iter_env) (n i : nat) (s : estate) : nat * estate * list event :=
  match n with
  | O => (i, s, [])
  | S n' =>
      if negb (budget_left s) then (i, s, []) else
      let ret := ie_create e i in
      if negb (ret =? 0) then
        if ret =? EAGAIN then (i, set_limited (u64_inc (limited s)) s, [ECreate i ret])
        else (i, set_ok false s, [ECreate i ret; EFail "pthread create"])
      else
        let s1 := inc_counter s in
        let k := ie_keep e i in
        if negb k then (i, s1, [ECreate i ret; EIncCounter; EReadStop k])
        else
          let '(i', s2, tr) := spawn_loop e n' (S i) s1 in
          (i', s2, ECreate i ret :: EIncCounter :: EReadStop k :: tr)
  end.

(** Lines 266-285.  [n] is [1000 - j]; the boolean is [true] for [goto reap]. *)
Fixpoint poll_loop (e : iter_env) (i : nat) (n j : nat) (s : estate) : bool * estate * list event :=
  match n with
  | O => (false, s, [])
  | S n' =>
      let r := ie_poll_lock e j in
      if negb (r =? 0) then (true, set_ok false s, [ELock r; EFail "mutex lock"]) else
      let c := ie_count e j in
      let all_running := (c =? Z.of_nat i) in
      let u := ie_poll_unlock e j in
      if negb (u =? 0) then (true, set_ok false s, [ELock r; EReadCount c; EUnlock u; EFail "mutex unlock"]) else
      if all_running then (false, s, [ELock r; EReadCount c; EUnlock u])
      else
        let '(g, s', tr) := poll_loop e i n' (S j) s in
        (g, s', ELock r :: EReadCount c :: EUnlock u :: tr)
  end.

(** Lines 294-297: the tgkill loop over the slots [j < i] with a recorded tid. *)
Fixpoint tgkill_loop (e : iter_env) (n j : nat) : list event :=
  match n with
  | O => []
  | S n' => (if negb (ie_tid e j =? 0) then [ETgkill j] else []) ++ tgkill_loop e n' (S j)
  end.

(** Lines 287-310, the termination broadcaster. *)
Definition broadcaster (e : iter_env) (i : nat) (s : estate) : estate * list event :=
  let r := ie_lock e in
  if negb (r =? 0) then (set_ok false s, [ELock r; EFail "mutex lock"]) else
  let kills := tgkill_loop e i 0 in
  let s1 := set_terminate true s in
  let b := ie_broadcast e in
  let '(s2, tb) := if negb (b =? 0) then (set_ok false s1, [EFail "pthread condition broadcast"])
                   else (s1, []) in
  let u := ie_unlock e in
  let '(s3, tu) := if negb (u =? 0) then (set_ok false s2, [EFail "mutex unlock"])
                   else (s2, []) in
  (s3, [ELock r] ++ kills ++ [ESetFlag; EBroadcast b] ++ tb ++ [EUnlock u] ++ tu).

(** Lines 312-319, the reap loop over the slots [j < i]. *)
Fixpoint reap_loop (e : iter_env) (n j : nat) (s : estate) : estate * list event :=
  match n with
  | O => (s, [])
  | S n' =>
      let r := ie_join e j in
      let '(s1, t1) := if negb (r =? 0) then (set_ok false s, [EJoin j r; EFail "pthread join"])
                       else (s, [EJoin j r]) in
      let '(s2, t2) := reap_loop e n' (S j) s1 in
      (s2, t1 ++ t2)
  end.

(** One pass of the do-while body, lines 233-319. *)
Definition iteration (e : iter_env) (s : estate) : estate * list event :=
  let s0 := set_terminate false s in
  let '(i, s1, tsp) := spawn_loop e pthread_max 0 s0 in
  let s2 := set_attempted (u64_inc (attempted s1)) s1 in
  let '(g, s3, tpoll) := poll_loop e i 1000 0 s2 in
  let '(s4, tb) := if g then (s3, []) else broadcaster e i s3 in
  let '(s5, tr) := reap_loop e i 0 s4 in
  (s5, [EResetFlag; EResetCount; EClearSlots] ++ tsp ++ tpoll ++ tb ++ tr).

(** Modelled from the spec: [keep_stressing()] of stress-ng.h, which is not
    in src/: the harness keeps running while its stop flag is still set and
    the op budget is not exhausted. *)
Definition keep_stressing (e : iter_env) (s : estate) : bool :=
  ie_keep_end e && budget_left s.

(** The do-while loop of lines 232-320.  One environment per iteration;
    [None] when the environments run out before the loop ends.  The result
    keeps each iteration's trace. *)
Fixpoint run (envs : list iter_env) (s : estate) : option (estate * list (list event)) :=
  match envs with
  | [] => None
  | e :: es =>
      let '(s1, t) := iteration e s in
      if ok s1 then
        let k := keep_stressing e s1 in
        if k then
          match run es s1 with
          | Some (s2, ts) => Some (s2, (t ++ [EKeepStressing k]) :: ts)
          | None => None
          end
        else Some (s1, [t ++ [EKeepStressing k]])
      else Some (s1, [t])
  end.

End Engine.

(** What the harness and libc answer before the do-while loop. *)
Record init_env : Type := {
  in_sighandler : Z;            (* stress_sighandler(SIGUSR2, SIG_IGN) *)
  in_setting : option Z;        (* get_setting("pthread-max") *)
  in_maximize : bool;           (* g_opt_flags & OPT_FLAGS_MAXIMIZE *)
  in_minimize : bool;           (* g_opt_flags & OPT_FLAGS_MINIMIZE *)
  in_cond_init : Z;
  in_spin_init : Z;
  in_mutex_init : Z
}.

(** Lines 199 and 208-213. *)
Definition pthread_max_of (ie : init_env) : Z :=
  match in_setting ie with
  | Some v => v
  | None =>
      let m := if in_maximize ie then MAX_PTHREAD else DEFAULT_PTHREAD in
      if in_minimize ie then MIN_PTHREAD else m
  end.

(** Lines 322-329: the informational line, as the pair (numerator,
    denominator) of the percentage [100.0 * limited / attempted]; printed
    only when [limited] is non-zero. *)
Definition limited_report (s : estate) : option (Z * Z) :=
  if limited s =? 0 then None else Some (100 * limited s, attempted s).

Definition initial_state (counter0 : Z) : estate :=
  {| ok := true; limited := 0; attempted := 0; counter := counter0;
     thread_terminate := false |}.

(** [stress_pthread], lines 195-336: the exit status, the final state and
    the trace of every iteration; [None] when the iteration environments run
    out before the loop ends. *)
Definition stress_pthread (max_ops counter0 : Z) (ie : init_env) (envs : list iter_env)
    : option (Z * estate * list (list event)) :=
  let s0 := initial_state counter0 in
  if in_sighandler ie <? 0 then Some (EXIT_FAILURE, s0, []) else
  let pmax := Z.to_nat (pthread_max_of ie) in
  if negb (in_cond_init ie =? 0) then Some (EXIT_FAILURE, s0, []) else
  if negb (in_spin_init ie =? 0) then Some (EXIT_FAILURE, s0, []) else
  if negb (in_mutex_init ie =? 0) then Some (EXIT_FAILURE, s0, []) else
  match run max_ops pmax envs s0 with
  | Some (s, ts) => Some (EXIT_SUCCESS, s, ts)
  | None => None
  end.

(** ** The worker thread *)

(** Actions of a worker, in program order. *)
Inductive wevent : Type :=
  | WSigmask                    (* sigprocmask(SIG_BLOCK, &set, NULL) *)
  | WAltstack (ret : Z)         (* stress_sigaltstack(stack, SIGSTKSZ) *)
  | WGettid (tid : Z)           (* pi->tid = syscall(__NR_gettid) *)
  | WGetRobust (ret : Z)        (* sys_get_robust_list(0, &head, &len) *)
  | WSetRobust (ret : Z)        (* sys_set_robust_list(head, len) *)
  | WSpinLock (ret : Z)
  | WIncCount                   (* pthread_count++ *)
  | WSpinUnlock (ret : Z)
  | WMutexLock (ret : Z)
  | WReadFlag (v : bool)        (* the test !thread_terminate *)
  | WCondWait (ret : Z)         (* pthread_cond_wait(&cond, &mutex) *)
  | WYield                      (* shim_sched_yield() *)
  | WMutexUnlock (ret : Z)
  | WOpen (fd : Z)              (* open("/proc/self/ns/uts", O_RDONLY) *)
  | WSetns                      (* setns(fd, 0) *)
  | WClose                      (* close(fd) *)
  | WFail (what : string).      (* pr_fail_err / pr_fail_errno *)

(** What the libc, the kernel and the other threads answer to one worker. *)
Record wenv : Type := {
  w_altstack : Z;
  w_gettid : Z;
  w_get_robust : Z;  w_get_errno : Z;   (* return value, then errno *)
  w_set_robust : Z;  w_set_errno : Z;
  w_spin_lock : Z;   w_spin_unlock : Z;
  w_mutex_lock : Z;
  w_flag : nat -> bool;         (* thread_terminate at the k-th test of the while *)
  w_wait : nat -> Z;            (* the k-th pthread_cond_wait *)
  w_mutex_unlock : Z;
  w_open : Z
}.

(** The shared data a worker writes: [pthread_count] and the tid field of the
    [pthreads] slots. *)
Record wshared : Type := {
  pthread_count : Z;
  tids : list Z
}.

(** Lines 114-133, the robust-list probe; [true] means [goto die]. *)
Definition robust_probe (w : wenv) : bool * list wevent :=
  let g := w_get_robust w in
  if g <? 0 then
    if negb (w_get_errno w =? ENOSYS) then (true, [WGetRobust g; WFail "get_robust_list"])
    else (false, [WGetRobust g])
  else
    let r := w_set_robust w in
    if r <? 0 then
      if negb (w_set_errno w =? ENOSYS) then (true, [WGetRobust g; WSetRobust r; WFail "set_robust_list"])
      else (false, [WGetRobust g; WSetRobust r])
    else (false, [WGetRobust g; WSetRobust r]).

(** Lines 159-166, the condition wait loop; [fuel] bounds the number of
    tests, [None] means still waiting. *)
Fixpoint wait_loop (w : wenv) (fuel k : nat) : option (list wevent) :=
  match fuel with
  | O => None
  | S f =>
      let b := w_flag w k in
      if b then Some [WReadFlag b] else
      let r := w_wait w k in
      if negb (r =? 0) then Some [WReadFlag b; WCondWait r; WFail "pthread condition wait"]
      else option_map (fun t => WReadFlag b :: WCondWait r :: WYield :: t) (wait_loop w f (S k))
  end.

(** Lines 171-185. *)
Definition setns_block (w : wenv) : list wevent :=
  let fd := w_open w in
  if 0 <=? fd then [WOpen fd; WSetns; WClose] else [WOpen fd].

(** Lines 135-186: register as running, wait for termination, exercise setns. *)
Definition register_and_wait (w : wenv) (fuel : nat) (s : wshared) : option (wshared * list wevent) :=
  let r := w_spin_lock w in
  if negb (r =? 0) then Some (s, [WSpinLock r; WFail "spinlock lock"]) else
  let s1 := {| pthread_count := u64_inc (pthread_count s); tids := tids s |} in
  let u := w_spin_unlock w in
  if negb (u =? 0) then Some (s1, [WSpinLock r; WIncCount; WSpinUnlock u; WFail "spin unlock"]) else
  let m := w_mutex_lock w in
  let pre := [WSpinLock r; WIncCount; WSpinUnlock u; WMutexLock m] in
  if negb (m =? 0) then Some (s1, pre ++ [WFail "mutex unlock"]) else
  match wait_loop w fuel 0 with
  | None => None
  | Some tw =>
      let mu := w_mutex_unlock w in
      let tu := if negb (mu =? 0) then [WMutexUnlock mu; WFail "mutex unlock"] else [WMutexUnlock mu] in
      Some (s1, pre ++ tw ++ tu ++ setns_block w)
  end.

(** [stress_pthread_func], lines 78-189, for the worker of slot [slot];
    [nowt_addr] is the address [&nowt] of the function's static variable.
    The result is the shared data, the worker's trace and its return value;
    [None] while the worker is still waiting after [fuel] tests. *)
Definition stress_pthread_func (nowt_addr : Z) (slot : nat) (w : wenv) (fuel : nat) (s : wshared)
    : option (wshared * list wevent * Z) :=
  let a := w_altstack w in
  let body : option (wshared * list wevent) :=
    if a <? 0 then Some (s, [WSigmask; WAltstack a]) else
    let t := w_gettid w in
    let s1 := {| pthread_count := pthread_count s; tids := <[slot := t]> (tids s) |} in
    let pre := [WSigmask; WAltstack a; WGettid t] in
    let '(die, tp) := robust_probe w in
    if die then Some (s1, pre ++ tp) else
    option_map (fun '(s2, t2) => (s2, pre ++ tp ++ t2)) (register_and_wait w fuel s1) in
  (* die: return &nowt; *)
  option_map (fun '(s', t) => (s', t, nowt_addr)) body.

(** ** Reading traces *)

(** The slots whose [pthread_create] succeeded. *)
Definition created_slots (tr : list event) : list nat :=
  flat_map (fun ev => match ev with ECreate j r => if r =? 0 then [j] else [] | _ => [] end) tr.

(** The slots passed to [pthread_join]. *)
Definition joined_slots (tr : list event) : list nat :=
  flat_map (fun ev => match ev with EJoin j _ => [j] | _ => [] end) tr.

Definition is_create (ev : event) : bool :=
  match ev with ECreate _ _ => true | _ => false end.
Definition is_read_stop (ev : event) : bool :=
  match ev with EReadStop _ => true | _ => false end.
Definition is_tgkill (ev : event) : bool :=
  match ev with ETgkill _ => true | _ => false end.
Definition is_join_or_fail (ev : event) : bool :=
  match ev with EJoin _ _ | EFail _ => true | _ => false end.
Definition is_flag_write (ev : event) : bool :=
  match ev with EResetFlag | ESetFlag => true | _ => false end.

(** Whether the controlling thread holds [mutex] after an event: a
    successful lock takes it, a successful unlock releases it. *)
Definition held_step (h : bool) (ev : event) : bool :=
  match ev with
  | ELock r => if r =? 0 then true else h
  | EUnlock r => if r =? 0 then false else h
  | _ => h
  end.

Definition held_after (h : bool) (tr : list event) : bool := fold_left held_step tr h.

(** Every write of [thread_terminate] in [tr], starting with the mutex held
    or not as [h] says, together with whether the mutex is held at it. *)
Fixpoint flag_writes_held (h : bool) (tr : list event) : list (event * bool) :=
  match tr with
  | [] => []
  | ev :: tr' =>
      (if is_flag_write ev then [(ev, h)] else []) ++ flag_writes_held (held_step h ev) tr'
  end.

(** The spawn-loop events of one successful create followed by a read of the
    stop flag that found it still set. *)
Definition spawn_round (j : nat) : list event := [ECreate j 0; EIncCounter; EReadStop true].

(** The environment in which every call succeeds, every worker registers
    at once and the harness never asks to stop. *)
Definition env_ok : iter_env := {|
  ie_create := fun _ => 0; ie_keep := fun _ => true;
  ie_poll_lock := fun _ => 0; ie_count := fun _ => 0; ie_poll_unlock := fun _ => 0;
  ie_lock := 0; ie_tid := fun _ => 0; ie_broadcast := 0; ie_unlock := 0;
  ie_join := fun _ => 0; ie_keep_end := true |}.

Definition with_create (f : nat -> Z) (e : iter_env) : iter_env := {|
  ie_create := f; ie_keep := ie_keep e;
  ie_poll_lock := ie_poll_lock e; ie_count := ie_count e; ie_poll_unlock := ie_poll_unlock e;
  ie_lock := ie_lock e; ie_tid := ie_tid e; ie_broadcast := ie_broadcast e;
  ie_unlock := ie_unlock e; ie_join := ie_join e; ie_keep_end := ie_keep_end e |}.

Definition with_keep (f : nat -> bool) (e : iter_env) : iter_env := {|
  ie_create := ie_create e; ie_keep := f;
  ie_poll_lock := ie_poll_lock e; ie_count := ie_count e; ie_poll_unlock := ie_poll_unlock e;
  ie_lock := ie_lock e; ie_tid := ie_tid e; ie_broadcast := ie_broadcast e;
  ie_unlock := ie_unlock e; ie_join := ie_join e; ie_keep_end := ie_keep_end e |}.

Definition with_count (f : nat -> Z) (e : iter_env) : iter_env := {|
  ie_create := ie_create e; ie_keep := ie_keep e;
  ie_poll_lock := ie_poll_lock e; ie_count := f; ie_poll_unlock := ie_poll_unlock e;
  ie_lock := ie_lock e; ie_tid := ie_tid e; ie_broadcast := ie_broadcast e;
  ie_unlock := ie_unlock e; ie_join := ie_join e; ie_keep_end := ie_keep_end e |}.

Definition init_ok : init_env := {|
  in_sighandler := 0; in_setting := None; in_maximize := false; in_minimize := false;
  in_cond_init := 0; in_spin_init := 0; in_mutex_init := 0 |}.

(** ** Sanity checks on small inputs *)

Example iteration_two_threads :
  snd (iteration 0 2 (with_count (fun _ => 2) env_ok) (initial_state 0)) =
  [EResetFlag; EResetCount; EClearSlots; ECreate 0 0; EIncCounter; EReadStop true;
   ECreate 1 0; EIncCounter; EReadStop true; ELock 0; EReadCount 2; EUnlock 0;
   ELock 0; ESetFlag; EBroadcast 0; EUnlock 0; EJoin 0 0; EJoin 1 0].
Proof. reflexivity. Qed.

Example iteration_eagain_second :
  let '(s, tr) := iteration 0 3 (with_count (fun _ => 1)
                    (with_create (fun j => if (j =? 1)%nat then EAGAIN else 0) env_ok))
                    (initial_state 0) in
  created_slots tr = [0%nat] /\ joined_slots tr = [0%nat] /\ limited s = 1 /\ ok s = true.
Proof. vm_compute. auto. Qed.

(** ** Lemmas on the phases of an iteration *)

Section Phases.

Variable max_ops : Z.
Variable pthread_max : nat.

(** How the spawn loop can end after its rounds: the loop bound or the op
    budget; the stop flag read as cleared right after a create; EAGAIN; any
    other create error. *)
Definition spawn_tail (e : iter_env) (i' : nat) (s s' : estate) (tail : list event) : Prop :=
  (tail = [] /\ limited s' = limited s /\ ok s' = ok s)
  \/ (tail = [ECreate i' 0; EIncCounter; EReadStop false] /\ ie_keep e i' = false
      /\ limited s' = limited s /\ ok s' = ok s)
  \/ (tail = [ECreate i' EAGAIN] /\ limited s' = u64_inc (limited s) /\ ok s' = ok s)
  \/ (exists r, r <> 0 /\ r <> EAGAIN /\ tail = [ECreate i' r; EFail "pthread create"]
      /\ limited s' = limited s /\ ok s' = false).

Lemma spawn_loop_shape e n i s :
  let '(i', s', tr) := spawn_loop max_ops e n i s in
  (i <= i' <= i + n)%nat /\
  (exists tail, tr = flat_map spawn_round (seq i (i' - i)) ++ tail /\ spawn_tail e i' s s' tail
     /\ (tail <> [] -> (i' < i + n)%nat))
  /\ attempted s' = attempted s /\ thread_terminate s' = thread_terminate s.
Proof.
  revert i s; induction n as [|n IH]; intros i s; simpl.
  - split; [lia|]. split; [|auto]. exists []. rewrite Nat.sub_diag. simpl.
    split; [reflexivity|]. split; [left; auto|congruence].
  - destruct (budget_left max_ops s) eqn:Hb; simpl.
    2:{ split; [lia|]. split; [|auto]. exists []. rewrite Nat.sub_diag.
        split; [reflexivity|]. split; [left; auto|congruence]. }
    destruct (ie_create e i =? 0) eqn:Hc; simpl.
    + apply Z.eqb_eq in Hc. rewrite Hc.
      destruct (ie_keep e i) eqn:Hk; simpl.
      * specialize (IH (S i) (inc_counter s)).
        destruct (spawn_loop max_ops e n (S i) (inc_counter s)) as [[i' s'] tr] eqn:Hs.
        destruct IH as [Hr [[tail [Htr [Ht Hlt]]] [Ha Ht']]].
        split; [lia|]. split; [|simpl in *; auto].
        exists tail. split; [|split].
        -- replace (i' - i)%nat with (S (i' - S i)) by lia. simpl. rewrite Htr. reflexivity.
        -- unfold spawn_tail in *. simpl in Ht. exact Ht.
        -- intros Hne. specialize (Hlt Hne). lia.
      * split; [lia|]. split; [|auto]. exists [ECreate i 0; EIncCounter; EReadStop false].
        rewrite Nat.sub_diag. split; [reflexivity|]. split; [right; left; auto|intros; lia].
    + destruct (ie_create e i =? EAGAIN) eqn:Ha; simpl.
      * apply Z.eqb_eq in Ha. rewrite Ha.
        split; [lia|]. split; [|auto]. exists [ECreate i EAGAIN].
        rewrite Nat.sub_diag. split; [reflexivity|]. split; [right; right; left; auto|intros; lia].
      * split; [lia|]. split; [|auto]. exists [ECreate i (ie_create e i); EFail "pthread create"].
        rewrite Nat.sub_diag. split; [reflexivity|]. split; [|intros; lia]. right; right; right.
        exists (ie_create e i). apply Z.eqb_neq in Hc. apply Z.eqb_neq in Ha. auto.
Qed.

Definition poll_event (ev : event) : bool :=
  match ev with ELock _ | EReadCount _ | EUnlock _ | EFail _ => true | _ => false end.
Definition is_fail (ev : event) : bool :=
  match ev with EFail _ => true | _ => false end.

Lemma poll_loop_shape e i n j s :
  let '(g, s', tr) := poll_loop e i n j s in
  Forall (fun ev => poll_event ev = true) tr /\
  ((g = false /\ s' = s /\ (n = O \/ held_after false tr = false)) \/ (g = true /\ s' = set_ok false s)).
Proof.
  revert j; induction n as [|n IH]; intros j; simpl.
  - split; [constructor|]. left; auto.
  - destruct (ie_poll_lock e j =? 0) eqn:Hl; simpl.
    2:{ split; [repeat constructor|]. right; auto. }
    apply Z.eqb_eq in Hl.
    destruct (ie_poll_unlock e j =? 0) eqn:Hu; simpl.
    2:{ split; [repeat constructor|]. right; auto. }
    apply Z.eqb_eq in Hu.
    destruct (ie_count e j =? Z.of_nat i) eqn:Hc.
    + split; [repeat constructor|]. left. split; [auto|]. split; [auto|]. right.
      unfold held_after; simpl. rewrite Hl, Hu. reflexivity.
    + specialize (IH (S j)).
      destruct (poll_loop e i n (S j) s) as [[g s'] tr] eqn:Hp.
      destruct IH as [Hf Hr]. split; [repeat constructor; auto|].
      destruct Hr as [[-> [-> Hh]] | [-> ->]]; [left | right]; auto.
      split; [auto|]. split; [auto|]. right.
      unfold held_after in *; simpl. rewrite Hl, Hu. simpl.
      destruct Hh as [-> | Hh]; [simpl in Hp; inversion Hp; reflexivity | exact Hh].
Qed.

Lemma tgkill_loop_tgkill e n j : Forall (fun ev => is_tgkill ev = true) (tgkill_loop e n j).
Proof.
  revert j; induction n as [|n IH]; intros j; simpl; [constructor|].
  apply Forall_app; split; [|apply IH].
  destruct (negb (ie_tid e j =? 0)); repeat constructor.
Qed.

Lemma broadcaster_shape e i s :
  let '(s', tr) := broadcaster e i s in
  (ie_lock e <> 0 /\ tr = [ELock (ie_lock e); EFail "mutex lock"] /\ s' = set_ok false s)
  \/ (ie_lock e = 0 /\
      exists tb tu, tr = ELock 0 :: tgkill_loop e i 0 ++ ESetFlag :: EBroadcast (ie_broadcast e) :: tb
                                ++ EUnlock (ie_unlock e) :: tu
      /\ Forall (fun ev => is_fail ev = true) tb /\ Forall (fun ev => is_fail ev = true) tu
      /\ thread_terminate s' = true /\ limited s' = limited s /\ attempted s' = attempted s
      /\ (ok s' = true -> ok s = true /\ ie_unlock e = 0)).
Proof.
  unfold broadcaster.
  destruct (ie_lock e =? 0) eqn:Hl; simpl.
  2:{ left. apply Z.eqb_neq in Hl. auto. }
  apply Z.eqb_eq in Hl. rewrite Hl.
  destruct (ie_broadcast e =? 0) eqn:Hb; destruct (ie_unlock e =? 0) eqn:Hu; simpl;
    right; (split; [reflexivity|]);
    [exists [], [] | exists [], [EFail "mutex unlock"]
    | exists [EFail "pthread condition broadcast"], []
    | exists [EFail "pthread condition broadcast"], [EFail "mutex unlock"]];
    (split; [reflexivity|]);
    (split; [repeat constructor|]); (split; [repeat constructor|]);
    (split; [reflexivity|]); (split; [reflexivity|]); (split; [reflexivity|]);
    intros H; simpl in H; try discriminate; split; [exact H | apply Z.eqb_eq; exact Hu].
Qed.

Lemma reap_loop_shape e n j s :
  let '(s', tr) := reap_loop e n j s in
  joined_slots tr = seq j n /\ Forall (fun ev => is_join_or_fail ev = true) tr
  /\ (s' = s \/ s' = set_ok false s).
Proof.
  revert j s; induction n as [|n IH]; intros j s; simpl.
  - split; [reflexivity|]. split; [constructor|]. left; reflexivity.
  - destruct (ie_join e j =? 0) eqn:Hj; simpl.
    + specialize (IH (S j) s). destruct (reap_loop e n (S j) s) as [s' tr] eqn:Hr.
      destruct IH as [Hjs [Hf Hs]]. split; [simpl; rewrite Hjs; reflexivity|].
      split; [constructor; auto|]. exact Hs.
    + specialize (IH (S j) (set_ok false s)).
      destruct (reap_loop e n (S j) (set_ok false s)) as [s' tr] eqn:Hr.
      destruct IH as [Hjs [Hf Hs]]. split; [simpl; rewrite Hjs; reflexivity|].
      split; [repeat constructor; auto|]. right.
      destruct Hs as [-> | ->]; reflexivity.
Qed.

Definition lock_free (ev : event) : bool :=
  match ev with ELock _ | EUnlock _ => false | _ => true end.

Lemma held_after_app h t1 t2 : held_after h (t1 ++ t2) = held_after (held_after h t1) t2.
Proof. unfold held_after. apply fold_left_app. Qed.

Lemma held_after_cons h ev tr : held_after h (ev :: tr) = held_after (held_step h ev) tr.
Proof. reflexivity. Qed.

Lemma held_after_lock_free h tr :
  Forall (fun ev => lock_free ev = true) tr -> held_after h tr = h.
Proof.
  intros Hf. revert h; induction Hf as [|ev tr Hev Hf IH]; intros h; [reflexivity|].
  unfold held_after in *; simpl. destruct ev; simpl in Hev; try discriminate; apply IH.
Qed.

Lemma Forall_impl_bool (P Q : event -> bool) tr :
  (forall ev, P ev = true -> Q ev = true) ->
  Forall (fun ev => P ev = true) tr -> Forall (fun ev => Q ev = true) tr.
Proof. intros H Hf. eapply Forall_impl; [exact Hf|]. exact H. Qed.

Lemma iteration_split e s :
  let '(s', tr) := iteration max_ops pthread_max e s in
  let '(i, s1, tsp) := spawn_loop max_ops e pthread_max 0 (set_terminate false s) in
  exists tpoll tb tr',
    tr = [EResetFlag; EResetCount; EClearSlots] ++ tsp ++ tpoll ++ tb ++ tr' /\
    Forall (fun ev => poll_event ev = true) tpoll /\
    joined_slots tr' = seq 0 i /\ Forall (fun ev => is_join_or_fail ev = true) tr' /\
    limited s' = limited s1 /\ attempted s' = u64_inc (attempted s1) /\
    (ok s' = true -> ok s1 = true /\ held_after false (tpoll ++ tb) = false) /\
    ((tb = [] /\ thread_terminate s' = false)
     \/ (exists tb' tu,
           tb = ELock 0 :: tgkill_loop e i 0 ++ ESetFlag :: EBroadcast (ie_broadcast e) :: tb'
                ++ EUnlock (ie_unlock e) :: tu
           /\ Forall (fun ev => is_fail ev = true) tb' /\ Forall (fun ev => is_fail ev = true) tu
           /\ thread_terminate s' = true)
     \/ (tb = [ELock (ie_lock e); EFail "mutex lock"] /\ ie_lock e <> 0
         /\ thread_terminate s' = false /\ ok s' = false)).
Proof.
  unfold iteration.
  pose proof (spawn_loop_shape e pthread_max 0 (set_terminate false s)) as Hsp.
  destruct (spawn_loop max_ops e pthread_max 0 (set_terminate false s)) as [[i s1] tsp] eqn:Hs.
  destruct Hsp as [_ [_ [_ Hterm1]]]. simpl in Hterm1.
  set (s2 := set_attempted (u64_inc (attempted s1)) s1).
  pose proof (poll_loop_shape e i 1000 0 s2) as Hp.
  destruct (poll_loop e i 1000 0 s2) as [[g s3] tpoll] eqn:Hpl.
  destruct Hp as [Hpf Hpr].
  assert (Hs3 : limited s3 = limited s1 /\ attempted s3 = u64_inc (attempted s1)
                /\ thread_terminate s3 = false /\ (ok s3 = true -> ok s1 = true)).
  { destruct Hpr as [[_ [-> _]] | [_ ->]]; simpl; repeat split; auto; discriminate. }
  destruct Hs3 as [Hl3 [Ha3 [Ht3 Ho3]]].
  destruct g.
  - (* goto reap from the poll loop *)
    destruct Hpr as [[Hg _] | [_ Hs3]]; [discriminate|].
    pose proof (reap_loop_shape e i 0 s3) as Hr.
    destruct (reap_loop e i 0 s3) as [s5 tr'] eqn:Hrl.
    destruct Hr as [Hj [Hrf Hrs]].
    exists tpoll, [], tr'. rewrite app_nil_l.
    split; [reflexivity|]. split; [exact Hpf|]. split; [exact Hj|]. split; [exact Hrf|].
    assert (Hok : ok s5 = false) by (destruct Hrs as [-> | ->]; subst s3; reflexivity).
    destruct Hrs as [-> | ->]; simpl; (split; [assumption|]); (split; [assumption|]);
      (split; [rewrite ?Hok; intros; discriminate|]); left; split; auto.
  - destruct Hpr as [[_ [Hs3 Hh]] | [Hg _]]; [|discriminate].
    destruct Hh as [Hh | Hh]; [discriminate|].
    pose proof (broadcaster_shape e i s3) as Hb.
    destruct (broadcaster e i s3) as [s4 tb] eqn:Hbr.
    pose proof (reap_loop_shape e i 0 s4) as Hr.
    destruct (reap_loop e i 0 s4) as [s5 tr'] eqn:Hrl.
    destruct Hr as [Hj [Hrf Hrs]].
    exists tpoll, tb, tr'.
    split; [reflexivity|]. split; [exact Hpf|]. split; [exact Hj|]. split; [exact Hrf|].
    destruct Hb as [[Hl [Htb Hs4]] | [Hl [tb' [tu [Htb [Hf1 [Hf2 [Ht4 [Hl4 [Ha4 Ho4]]]]]]]]]].
    + assert (Hok : ok s5 = false) by (destruct Hrs as [-> | ->]; subst s4; reflexivity).
      destruct Hrs as [-> | ->]; subst s4; simpl;
        (split; [assumption|]); (split; [assumption|]);
        (split; [rewrite ?Hok; intros; discriminate|]); right; right; auto.
    + assert (Hs5 : limited s5 = limited s4 /\ attempted s5 = attempted s4
                    /\ thread_terminate s5 = thread_terminate s4 /\ (ok s5 = true -> ok s4 = true))
        by (destruct Hrs as [-> | ->]; simpl; repeat split; auto; discriminate).
      destruct Hs5 as [Hl5 [Ha5 [Ht5 Ho5]]].
      split; [congruence|]. split; [congruence|].
      split.
      * intros Hok. destruct (Ho4 (Ho5 Hok)) as [Hok3 Hu]. split; [auto|].
        assert (Hlf : forall P tr, (forall ev, P ev = true -> lock_free ev = true) ->
                  Forall (fun ev => P ev = true) tr -> forall h, held_after h tr = h).
        { intros P tr HP Hf h. apply held_after_lock_free. eapply Forall_impl_bool; eauto. }
        rewrite held_after_app, Hh, Htb, held_after_cons. simpl held_step.
        rewrite held_after_app, (Hlf is_tgkill (tgkill_loop e i 0)) by (apply tgkill_loop_tgkill || (intros []; simpl; congruence)).
        rewrite !held_after_cons. simpl held_step.
        rewrite held_after_app, (Hlf is_fail tb') by (exact Hf1 || (intros []; simpl; congruence)).
        rewrite held_after_cons, Hu. simpl held_step.
        apply (Hlf is_fail tu); [intros []; simpl; congruence | exact Hf2].
      * right; left. exists tb', tu. repeat split; auto. congruence.
Qed.

Definition post_spawn_event (ev : event) : bool :=
  match ev with
  | ELock _ | EUnlock _ | EReadCount _ | ETgkill _ | ESetFlag | EBroadcast _ | EFail _ => true
  | _ => false
  end.

Lemma created_slots_app t1 t2 : created_slots (t1 ++ t2) = created_slots t1 ++ created_slots t2.
Proof. apply flat_map_app. Qed.

Lemma joined_slots_app t1 t2 : joined_slots (t1 ++ t2) = joined_slots t1 ++ joined_slots t2.
Proof. apply flat_map_app. Qed.

Lemma post_spawn_slots tr :
  Forall (fun ev => post_spawn_event ev = true) tr ->
  created_slots tr = [] /\ joined_slots tr = [] /\ Forall (fun ev => is_read_stop ev = false) tr.
Proof.
  induction 1 as [|ev tr Hev _ [IH1 [IH2 IH3]]]; [repeat constructor|].
  destruct ev; simpl in Hev; try discriminate; simpl; auto.
Qed.

Lemma join_or_fail_slots tr :
  Forall (fun ev => is_join_or_fail ev = true) tr ->
  created_slots tr = [] /\ Forall (fun ev => is_read_stop ev = false) tr.
Proof.
  induction 1 as [|ev tr Hev _ [IH1 IH2]]; [repeat constructor|].
  destruct ev; simpl in Hev; try discriminate; simpl; auto.
Qed.

Lemma spawn_rounds_slots k n :
  created_slots (flat_map spawn_round (seq k n)) = seq k n
  /\ joined_slots (flat_map spawn_round (seq k n)) = [].
Proof.
  revert k; induction n as [|n IH]; intros k; [auto|].
  simpl. destruct (IH (S k)) as [H1 H2]. rewrite H1, H2. auto.
Qed.

Lemma broadcast_part_post_spawn e i tb :
  (tb = []) \/
  (exists tb' tu,
      tb = ELock 0 :: tgkill_loop e i 0 ++ ESetFlag :: EBroadcast (ie_broadcast e) :: tb' ++ EUnlock (ie_unlock e) :: tu
      /\ Forall (fun ev => is_fail ev = true) tb' /\ Forall (fun ev => is_fail ev = true) tu) \/
  (tb = [ELock (ie_lock e); EFail "mutex lock"]) ->
  Forall (fun ev => post_spawn_event ev = true) tb.
Proof.
  intros [-> | [[tb' [tu [-> [H1 H2]]]] | ->]]; [constructor| |repeat constructor].
  pose proof (tgkill_loop_tgkill e i 0) as Hk.
  constructor; [reflexivity|]. apply Forall_app; split.
  - eapply Forall_impl_bool; [|exact Hk]. intros []; simpl; congruence.
  - repeat constructor. apply Forall_app; split.
    + eapply Forall_impl_bool; [|exact H1]. intros []; simpl; congruence.
    + constructor; [reflexivity|]. eapply Forall_impl_bool; [|exact H2]. intros []; simpl; congruence.
Qed.

Lemma poll_post_spawn tpoll :
  Forall (fun ev => poll_event ev = true) tpoll -> Forall (fun ev => post_spawn_event ev = true) tpoll.
Proof. apply Forall_impl_bool. intros []; simpl; congruence. Qed.

(** An iteration's trace: the reset, the rounds of the spawn loop that
    created a thread and found the stop flag still set, the way the spawn loop
    ended, and the rest, which creates no thread, never reads the stop flag
    and joins the slots [0 .. i-1]. *)
Lemma iteration_trace e s :
  let '(s', tr) := iteration max_ops pthread_max e s in
  let '(i, s1, tsp) := spawn_loop max_ops e pthread_max 0 (set_terminate false s) in
  exists tail rest,
    tr = [EResetFlag; EResetCount; EClearSlots] ++ flat_map spawn_round (seq 0 i) ++ tail ++ rest
    /\ tsp = flat_map spawn_round (seq 0 i) ++ tail
    /\ spawn_tail e i (set_terminate false s) s1 tail /\ (tail <> [] -> (i < pthread_max)%nat)
    /\ Forall (fun ev => is_create ev = false /\ is_read_stop ev = false) rest
    /\ joined_slots rest = seq 0 i.
Proof.
  pose proof (iteration_split e s) as Hit.
  pose proof (spawn_loop_shape e pthread_max 0 (set_terminate false s)) as Hsp.
  destruct (iteration max_ops pthread_max e s) as [s' tr].
  destruct (spawn_loop max_ops e pthread_max 0 (set_terminate false s)) as [[i s1] tsp].
  destruct Hit as [tpoll [tb [tr' [Htr [Hpf [Hj [Hrf [_ [_ [_ Hcase]]]]]]]]]].
  destruct Hsp as [_ [[tail [Htsp [Htail Hlt]]] _]]. rewrite Nat.sub_0_r in Htsp.
  assert (Hps : Forall (fun ev => post_spawn_event ev = true) (tpoll ++ tb)).
  { apply Forall_app; split; [apply poll_post_spawn; exact Hpf|].
    apply broadcast_part_post_spawn with (e := e) (i := i).
    destruct Hcase as [[-> _] | [[tb' [tu [Htb [H1 [H2 _]]]]] | [-> _]]]; auto.
    right; left. exists tb', tu. auto. }
  exists tail, (tpoll ++ tb ++ tr').
  split; [rewrite Htr, Htsp, <- !app_assoc; reflexivity|].
  split; [exact Htsp|]. split; [exact Htail|]. split; [exact Hlt|].
  split.
  - rewrite app_assoc. apply Forall_app; split.
    + eapply Forall_impl; [exact Hps|]. intros []; simpl; intros H; try discriminate; auto.
    + eapply Forall_impl; [exact Hrf|]. intros []; simpl; intros H; try discriminate; auto.
  - apply post_spawn_slots in Hps. destruct Hps as [_ [Hj1 _]].
    rewrite app_assoc, joined_slots_app, Hj1, Hj. reflexivity.
Qed.

Lemma created_slots_none tr :
  Forall (fun ev => is_create ev = false /\ is_read_stop ev = false) tr -> created_slots tr = [].
Proof.
  induction 1 as [|ev tr [Hev _] _ IH]; [reflexivity|].
  destruct ev; simpl in Hev; try discriminate; simpl; exact IH.
Qed.

(** The handles joined in an iteration are those of the slots [0 .. i-1]
    counted by the spawn loop; the threads created are the same, except when
    the loop stopped on the harness stop flag, which leaves slot [i]
    created. *)
Lemma iteration_created_joined e s :
  let '(s', tr) := iteration max_ops pthread_max e s in
  let '(i, s1, tsp) := spawn_loop max_ops e pthread_max 0 (set_terminate false s) in
  joined_slots tr = seq 0 i /\
  (created_slots tr = seq 0 i \/
   (created_slots tr = seq 0 (S i) /\ ie_keep e i = false)).
Proof.
  pose proof (iteration_trace e s) as Hit.
  destruct (iteration max_ops pthread_max e s) as [s' tr].
  destruct (spawn_loop max_ops e pthread_max 0 (set_terminate false s)) as [[i s1] tsp].
  destruct Hit as [tail [rest [Htr [_ [Htail [_ [Hrest Hj]]]]]]].
  destruct (spawn_rounds_slots 0 i) as [Hc0 Hj0].
  rewrite Htr, !joined_slots_app, !created_slots_app, Hj0, Hc0, Hj, (created_slots_none _ Hrest).
  simpl. rewrite !app_nil_r.
  destruct Htail as [[-> _] | [[-> [Hk _]] | [[-> _] | [r [Hr [_ [-> _]]]]]]]; simpl.
  - rewrite app_nil_r. auto.
  - split; [reflexivity|]. right. split; [|exact Hk].
    change (0%nat :: seq 1 i) with (seq 0 (S i)). rewrite seq_S. reflexivity.
  - rewrite app_nil_r. auto.
  - apply Z.eqb_neq in Hr. rewrite Hr. simpl. rewrite app_nil_r. auto.
Qed.

Definition spawn_event (ev : event) : bool :=
  match ev with ECreate _ _ | EIncCounter | EReadStop _ | EFail _ => true | _ => false end.

Lemma spawn_loop_events e n i s :
  Forall (fun ev => spawn_event ev = true) (snd (spawn_loop max_ops e n i s)).
Proof.
  pose proof (spawn_loop_shape e n i s) as H.
  destruct (spawn_loop max_ops e n i s) as [[i' s'] tr]. simpl.
  destruct H as [_ [[tail [-> [Ht _]]] _]].
  apply Forall_app; split.
  - apply Forall_flat_map. apply Forall_forall. intros j _. repeat constructor.
  - destruct Ht as [[-> _] | [[-> _] | [[-> _] | [r [_ [_ [-> _]]]]]]]; repeat constructor.
Qed.

Lemma not_in_of_forall (P : event -> bool) (l : list event) (x : event) :
  Forall (fun ev => P ev = true) l -> P x = false -> ~ In x l.
Proof.
  intros Hf Hx Hin. rewrite List.Forall_forall in Hf. specialize (Hf x Hin). congruence.
Qed.

End Phases.

Definition flag_writes (tr : list event) : list event := List.filter is_flag_write tr.

Lemma flag_writes_held_app h t1 t2 :
  flag_writes_held h (t1 ++ t2) = flag_writes_held h t1 ++ flag_writes_held (held_after h t1) t2.
Proof.
  revert h; induction t1 as [|ev t1 IH]; intros h; [reflexivity|].
  simpl. rewrite IH, app_assoc. reflexivity.
Qed.

Lemma flag_writes_held_none h tr :
  Forall (fun ev => is_flag_write ev = false) tr -> flag_writes_held h tr = [].
Proof.
  intros Hf. revert h; induction Hf as [|ev tr Hev _ IH]; intros h; [reflexivity|].
  simpl. rewrite Hev, IH. reflexivity.
Qed.

Lemma flag_writes_none tr :
  Forall (fun ev => is_flag_write ev = false) tr -> flag_writes tr = [].
Proof.
  induction 1 as [|ev tr Hev _ IH]; [reflexivity|]. unfold flag_writes in *. simpl. rewrite Hev. exact IH.
Qed.

Lemma flag_writes_cons ev t :
  flag_writes (ev :: t) = if is_flag_write ev then ev :: flag_writes t else flag_writes t.
Proof. reflexivity. Qed.

Lemma flag_writes_app t1 t2 : flag_writes (t1 ++ t2) = flag_writes t1 ++ flag_writes t2.
Proof. unfold flag_writes. apply List.filter_app. Qed.

Definition flag_write_under_rule (p : event * bool) : Prop :=
  p = (ESetFlag, true) \/ p = (EResetFlag, false).

(** In one iteration: the flag is first reset, then set at most once; the
    set happens with the mutex held, the reset (starting from a released
    mutex) without it; and a successful iteration ends with the mutex
    released. *)
Lemma iteration_flags max_ops pthread_max e s :
  let '(s', t) := iteration max_ops pthread_max e s in
  (exists t', t = EResetFlag :: t' /\ (flag_writes t' = [] \/ flag_writes t' = [ESetFlag]))
  /\ Forall flag_write_under_rule (flag_writes_held false t)
  /\ (ok s' = true -> held_after false t = false).
Proof.
  pose proof (iteration_split max_ops pthread_max e s) as Hit.
  pose proof (spawn_loop_events max_ops e pthread_max 0 (set_terminate false s)) as Hse.
  destruct (iteration max_ops pthread_max e s) as [s' t].
  destruct (spawn_loop max_ops e pthread_max 0 (set_terminate false s)) as [[i s1] tsp].
  simpl snd in Hse.
  destruct Hit as [tpoll [tb [tr' [Htr [Hpf [_ [Hrf [_ [_ [Hok Hcase]]]]]]]]]].
  assert (Hsp_nf : Forall (fun ev => is_flag_write ev = false) tsp)
    by (eapply Forall_impl; [exact Hse|]; intros []; simpl; congruence).
  assert (Hsp_lf : Forall (fun ev => lock_free ev = true) tsp)
    by (eapply Forall_impl; [exact Hse|]; intros []; simpl; congruence).
  assert (Hp_nf : Forall (fun ev => is_flag_write ev = false) tpoll)
    by (eapply Forall_impl; [exact Hpf|]; intros []; simpl; congruence).
  assert (Hr_nf : Forall (fun ev => is_flag_write ev = false) tr')
    by (eapply Forall_impl; [exact Hrf|]; intros []; simpl; congruence).
  assert (Hr_lf : Forall (fun ev => lock_free ev = true) tr')
    by (eapply Forall_impl; [exact Hrf|]; intros []; simpl; congruence).
  assert (Htb : flag_writes tb = [] /\ (forall h, flag_writes_held h tb = [])
                \/ flag_writes tb = [ESetFlag] /\ (forall h, flag_writes_held h tb = [(ESetFlag, true)])).
  { destruct Hcase as [[-> _] | [[tb' [tu [-> [H1 [H2 _]]]]] | [-> _]]].
    - left. split; reflexivity.
    - right. pose proof (tgkill_loop_tgkill e i 0) as Hk.
      assert (Hk' : Forall (fun ev => is_flag_write ev = false) (tgkill_loop e i 0))
        by (eapply Forall_impl; [exact Hk|]; intros []; simpl; congruence).
      assert (H1' : Forall (fun ev => is_flag_write ev = false) tb')
        by (eapply Forall_impl; [exact H1|]; intros []; simpl; congruence).
      assert (H2' : Forall (fun ev => is_flag_write ev = false) tu)
        by (eapply Forall_impl; [exact H2|]; intros []; simpl; congruence).
      split.
      + rewrite flag_writes_cons. cbn -[flag_writes tgkill_loop].
        rewrite flag_writes_app, (flag_writes_none _ Hk'), flag_writes_cons. cbn -[flag_writes tgkill_loop].
        rewrite flag_writes_cons. cbn -[flag_writes tgkill_loop].
        rewrite flag_writes_app, (flag_writes_none _ H1'), flag_writes_cons. cbn -[flag_writes tgkill_loop].
        rewrite (flag_writes_none _ H2'). reflexivity.
      + intros h. simpl. rewrite flag_writes_held_app, (flag_writes_held_none _ _ Hk').
        rewrite held_after_lock_free
          by (eapply Forall_impl; [exact Hk|]; intros []; simpl; congruence).
        simpl. rewrite flag_writes_held_app, (flag_writes_held_none _ _ H1'). simpl.
        rewrite (flag_writes_held_none _ _ H2'). reflexivity.
    - left. split; reflexivity. }
  split; [|split].
  - exists (EResetCount :: EClearSlots :: tsp ++ tpoll ++ tb ++ tr'). split; [rewrite Htr; reflexivity|].
    rewrite !flag_writes_cons. cbn -[flag_writes].
    rewrite !flag_writes_app, (flag_writes_none _ Hsp_nf), (flag_writes_none _ Hp_nf),
      (flag_writes_none _ Hr_nf).
    destruct Htb as [[-> _] | [-> _]]; simpl; auto.
  - rewrite Htr, !flag_writes_held_app, (flag_writes_held_none _ _ Hsp_nf),
      (flag_writes_held_none _ _ Hp_nf), (flag_writes_held_none _ _ Hr_nf).
    destruct Htb as [[_ ->] | [_ ->]]; simpl;
      repeat (apply List.Forall_cons; [unfold flag_write_under_rule; auto|]); apply List.Forall_nil.
  - intros Hs'. destruct (Hok Hs') as [_ Hh].
    rewrite Htr, !held_after_app. simpl.
    rewrite (held_after_lock_free _ _ Hsp_lf), <- (held_after_app false tpoll tb), Hh.
    apply held_after_lock_free. exact Hr_lf.
Qed.

(** The writes of [thread_terminate] that change its value, starting from
    value [v] and mutex state [h]: the new value, and whether the mutex is
    held at the write. *)
Fixpoint flag_transitions (v h : bool) (tr : list event) : list (bool * bool) :=
  match tr with
  | [] => []
  | ev :: tr' =>
      let v' := match ev with EResetFlag => false | ESetFlag => true | _ => v end in
      (if is_flag_write ev && negb (Bool.eqb v v') then [(v', h)] else [])
      ++ flag_transitions v' (held_step h ev) tr'
  end.

Lemma keep_event_free k :
  Forall (fun ev => is_flag_write ev = false /\ lock_free ev = true /\ is_create ev = false) [EKeepStressing k].
Proof. repeat constructor. Qed.

Lemma tgkill_loop_in e n k j :
  In (ETgkill j) (tgkill_loop e n k) <-> (k <= j < k + n)%nat /\ ie_tid e j <> 0.
Proof.
  revert k; induction n as [|n IH]; intros k; simpl.
  - split; [intros []|lia].
  - rewrite in_app_iff, IH.
    destruct (ie_tid e k =? 0) eqn:Ht; simpl.
    + apply Z.eqb_eq in Ht. split.
      * intros [[]|[H1 H2]]; split; [lia|exact H2].
      * intros [H1 H2]. right. split; [|exact H2].
        destruct (Nat.eq_dec k j) as [->|Hne]; [contradiction|lia].
    + apply Z.eqb_neq in Ht. split.
      * intros [[Heq|[]]|[H1 H2]]; [injection Heq as <-; split; [lia|exact Ht]|].
        split; [lia|exact H2].
      * intros [H1 H2]. destruct (Nat.eq_dec k j) as [->|Hne]; [left; left; reflexivity|].
        right. split; [lia|exact H2].
Qed.

(** ** The claims *)

(** C4: the termination broadcaster runs as one critical section under the
    mutex, in the order lock, tgkill each worker with a recorded tid, set
    [thread_terminate], broadcast, unlock; when it runs, only joins and
    diagnostics follow in the iteration, so the flag stays true for every
    woken worker.  When its lock fails, or the poll loop jumped to the reap
    loop, the flag is not set and nothing is broadcast. *)
Theorem termination_broadcast_critical_section (max_ops : Z) (pthread_max : nat)
    (e : iter_env) (s : estate) :
  let '(s', tr) := iteration max_ops pthread_max e s in
  let i := fst (fst (spawn_loop max_ops e pthread_max 0 (set_terminate false s))) in
  (~ In ESetFlag tr /\ (forall b, ~ In (EBroadcast b) tr) /\ thread_terminate s' = false)
  \/ (exists pre tb tu post,
        tr = pre ++ ELock 0 :: tgkill_loop e i 0 ++ ESetFlag :: EBroadcast (ie_broadcast e) :: tb
                 ++ EUnlock (ie_unlock e) :: tu ++ post
        /\ ~ In ESetFlag pre /\ (forall b, ~ In (EBroadcast b) pre)
        /\ (forall j, In (ETgkill j) (tgkill_loop e i 0) <-> (j < i)%nat /\ ie_tid e j <> 0)
        /\ Forall (fun ev => is_fail ev = true) tb /\ Forall (fun ev => is_fail ev = true) tu
        /\ Forall (fun ev => is_join_or_fail ev = true) post
        /\ thread_terminate s' = true).
Proof.
  pose proof (iteration_split max_ops pthread_max e s) as Hit.
  pose proof (spawn_loop_events max_ops e pthread_max 0 (set_terminate false s)) as Hse.
  destruct (iteration max_ops pthread_max e s) as [s' tr].
  destruct (spawn_loop max_ops e pthread_max 0 (set_terminate false s)) as [[i s1] tsp].
  simpl fst. simpl snd in Hse.
  destruct Hit as [tpoll [tb [tr' [Htr [Hpf [_ [Hrf [_ [_ [_ Hcase]]]]]]]]]].
  set (Q := fun ev => match ev with ESetFlag | EBroadcast _ => false | _ => true end).
  assert (Hpre : Forall (fun ev => Q ev = true) ([EResetFlag; EResetCount; EClearSlots] ++ tsp ++ tpoll)).
  { apply Forall_app; split; [repeat constructor|]. apply Forall_app; split.
    - eapply Forall_impl_bool; [|exact Hse]. intros []; simpl; congruence.
    - eapply Forall_impl_bool; [|exact Hpf]. intros []; simpl; congruence. }
  assert (Hpost : Forall (fun ev => Q ev = true) tr').
  { eapply Forall_impl_bool; [|exact Hrf]. intros []; simpl; congruence. }
  destruct Hcase as [[-> Ht] | [[tb' [tu [Htb [H1 [H2 Ht]]]]] | [-> [_ [Ht _]]]]].
  - left. assert (Hall : Forall (fun ev => Q ev = true) tr).
    { rewrite Htr, app_nil_l, !app_assoc. rewrite !app_assoc in Hpre.
      apply Forall_app; split; [exact Hpre|exact Hpost]. }
    split; [apply (not_in_of_forall Q); auto|]. split; [|exact Ht].
    intros b. apply (not_in_of_forall Q); auto.
  - right. exists ([EResetFlag; EResetCount; EClearSlots] ++ tsp ++ tpoll), tb', tu, tr'.
    split; [rewrite Htr, Htb; simpl; rewrite <- !app_assoc; simpl; rewrite <- !app_assoc; reflexivity|].
    split; [apply (not_in_of_forall Q); auto|].
    split; [intros b; apply (not_in_of_forall Q); auto|].
    split; [intros j; rewrite tgkill_loop_in; lia|].
    auto.
  - left. assert (Hall : Forall (fun ev => Q ev = true) tr).
    { rewrite Htr, !app_assoc. rewrite !app_assoc in Hpre.
      apply Forall_app; split; [|exact Hpost]. apply Forall_app; split; [exact Hpre|].
      repeat constructor. }
    split; [apply (not_in_of_forall Q); auto|]. split; [|exact Ht].
    intros b. apply (not_in_of_forall Q); auto.
Qed.

(** C3: if pthread_create answers EAGAIN on attempt [k] (slot [k-1]) of an
    iteration, then [k <= pthread_max], the spawn loop stopped with [i = k-1]
    without clearing [ok], exactly the slots [0 .. k-2] were created and
    are joined, and [limited] went up by one. *)
Theorem eagain_attempt_reaps_prefix (max_ops : Z) (pthread_max : nat) (e : iter_env)
    (s : estate) (k : nat)
    (Hk : (1 <= k)%nat)
    (Hea : In (ECreate (k - 1) EAGAIN) (snd (iteration max_ops pthread_max e s))) :
  let '(s', tr) := iteration max_ops pthread_max e s in
  let '(i, s1, _) := spawn_loop max_ops e pthread_max 0 (set_terminate false s) in
  (k <= pthread_max)%nat /\ i = (k - 1)%nat /\ ok s1 = ok s /\
  created_slots tr = seq 0 (k - 1) /\ joined_slots tr = seq 0 (k - 1) /\
  limited s' = u64_inc (limited s).
Proof.
  pose proof (iteration_trace max_ops pthread_max e s) as Hit.
  pose proof (iteration_split max_ops pthread_max e s) as Hsplit.
  destruct (iteration max_ops pthread_max e s) as [s' tr]. simpl snd in Hea.
  destruct (spawn_loop max_ops e pthread_max 0 (set_terminate false s)) as [[i s1] tsp].
  destruct Hsplit as [tp0 [tb0 [tr0 [_ [_ [_ [_ [Hl1 _]]]]]]]].
  destruct Hit as [tail [rest [Htr [_ [Htail [Hlt [Hrest Hj]]]]]]].
  assert (Hin : In (ECreate (k - 1) EAGAIN) tail).
  { rewrite Htr in Hea. apply in_app_or in Hea as [Hp | Hea].
    { simpl in Hp. intuition discriminate. }
    apply in_app_or in Hea as [Hf | Hea].
    { apply in_flat_map in Hf as [j [_ Hj']]. simpl in Hj'.
      destruct Hj' as [Heq | [Heq | [Heq | []]]]; discriminate. }
    apply in_app_or in Hea as [Ht | Hr]; [exact Ht|].
    rewrite List.Forall_forall in Hrest. destruct (Hrest _ Hr) as [Hc _]. discriminate. }
  destruct Htail as [[-> _] | [[-> _] | [[-> [Hl Ho]] | [r [_ [Hr [-> _]]]]]]].
  - destruct Hin.
  - simpl in Hin. destruct Hin as [Heq | [Heq | [Heq | []]]]; discriminate.
  - simpl in Hin. destruct Hin as [Heq | []]. injection Heq as Hi.
    assert (Hkp : (i < pthread_max)%nat) by (apply Hlt; discriminate).
    destruct (spawn_rounds_slots 0 i) as [Hc0 _].
    split; [lia|]. split; [lia|]. split; [exact Ho|].
    split; [|split].
    + rewrite Htr, !created_slots_app, Hc0, (created_slots_none _ Hrest). simpl.
      rewrite !app_nil_r. f_equal. lia.
    + rewrite Htr, !joined_slots_app, Hj, (proj2 (spawn_rounds_slots 0 i)). simpl. f_equal. lia.
    + rewrite Hl1, Hl. reflexivity.
  - simpl in Hin. destruct Hin as [Heq | [Heq | []]]; try discriminate.
    injection Heq as _ Heq. congruence.
Qed.

(** An iteration with [pthread_max = 3] in which the second create answers
    EAGAIN. *)
Definition env_eagain_second : iter_env :=
  with_count (fun _ => 1) (with_create (fun j => if (j =? 1)%nat then EAGAIN else 0) env_ok).

Lemma eagain_attempt_reaps_prefix_witness :
  (1 <= 2)%nat /\ In (ECreate (2 - 1) EAGAIN) (snd (iteration 0 3 env_eagain_second (initial_state 0))) /\
  let '(s', tr) := iteration 0 3 env_eagain_second (initial_state 0) in
  let '(i, s1, _) := spawn_loop 0 env_eagain_second 3 0 (set_terminate false (initial_state 0)) in
  (2 <= 3)%nat /\ i = (2 - 1)%nat /\ ok s1 = ok (initial_state 0) /\
  created_slots tr = seq 0 (2 - 1) /\ joined_slots tr = seq 0 (2 - 1) /\
  limited s' = u64_inc (limited (initial_state 0)).
Proof.
  assert (Hin : In (ECreate (2 - 1) EAGAIN) (snd (iteration 0 3 env_eagain_second (initial_state 0)))).
  { vm_compute. right; right; right; right; right; right; left. reflexivity. }
  split; [lia|]. split; [exact Hin|].
  apply (eagain_attempt_reaps_prefix 0 3 env_eagain_second (initial_state 0) 2); [lia | exact Hin].
Defined.

(** The environment in which the harness has already cleared its stop flag. *)
Definition env_stopped : iter_env := {|
  ie_create := fun _ => 0; ie_keep := fun _ => false;
  ie_poll_lock := fun _ => 0; ie_count := fun _ => 0; ie_poll_unlock := fun _ => 0;
  ie_lock := 0; ie_tid := fun _ => 0; ie_broadcast := 0; ie_unlock := 0;
  ie_join := fun _ => 0; ie_keep_end := false |}.

Definition init_pmax2 : init_env := {|
  in_sighandler := 0; in_setting := Some 2; in_maximize := false; in_minimize := false;
  in_cond_init := 0; in_spin_init := 0; in_mutex_init := 0 |}.

(** C1 (failing input): with [pthread-max = 2] and the harness stop flag
    cleared, the first pthread_create succeeds, the [break] on
    [!g_keep_stressing_flag] leaves [i = 0], and the reap loop joins no
    handle: slot 0 was created and is never joined. *)
Theorem stop_flag_break_leaks_created_thread :
  match stress_pthread 0 0 init_pmax2 [env_stopped] with
  | Some (st, s, [tr]) =>
      created_slots tr = [0%nat] /\ joined_slots tr = [] /\ st = EXIT_SUCCESS
  | _ => False
  end.
Proof. vm_compute. auto. Qed.

(** The reading of C6 that the stop flag is tested at the top of the spawn
    loop: every pthread_create of an iteration comes right after a read of
    the stop flag that found it still set. *)
Definition stop_checked_before_create (tr : list event) : Prop :=
  forall p j r, tr !! p = Some (ECreate j r) ->
  exists p', p = S p' /\ tr !! p' = Some (EReadStop true).

(** C6 (counterexample): with the stop flag already cleared, an iteration
    still creates the thread of slot 0, and that create is not preceded by
    any read of the flag. *)
Theorem stop_flag_not_read_before_first_create :
  ~ (forall max_ops pthread_max e s,
       stop_checked_before_create (snd (iteration max_ops pthread_max e s))).
Proof.
  intros H. specialize (H 0 1%nat env_stopped (initial_state 0) 3%nat 0%nat 0).
  destruct H as [p' [Hp Hr]]; [reflexivity|].
  injection Hp as <-. discriminate Hr.
Qed.

(** C6 (amended): within an iteration the stop flag is read in the spawn
    loop only right after each successful pthread_create, so the rounds
    before the last are [create; inc_counter; read (set)]; once a read finds
    it cleared no further thread is created; the barrier, broadcast and join
    phases that follow never read it and create nothing, and the reap loop
    joins every slot [0 .. i-1] counted by the spawn loop. *)
Theorem stop_flag_read_after_each_create (max_ops : Z) (pthread_max : nat) (e : iter_env)
    (s : estate) :
  let '(s', tr) := iteration max_ops pthread_max e s in
  let '(i, _, _) := spawn_loop max_ops e pthread_max 0 (set_terminate false s) in
  exists tail rest,
    tr = [EResetFlag; EResetCount; EClearSlots] ++ flat_map spawn_round (seq 0 i) ++ tail ++ rest
    /\ (tail = [] \/ tail = [ECreate i 0; EIncCounter; EReadStop false] \/ tail = [ECreate i EAGAIN]
        \/ exists r, r <> 0 /\ tail = [ECreate i r; EFail "pthread create"])
    /\ Forall (fun ev => is_create ev = false /\ is_read_stop ev = false) rest
    /\ joined_slots rest = seq 0 i.
Proof.
  pose proof (iteration_trace max_ops pthread_max e s) as Hit.
  destruct (iteration max_ops pthread_max e s) as [s' tr].
  destruct (spawn_loop max_ops e pthread_max 0 (set_terminate false s)) as [[i s1] tsp].
  destruct Hit as [tail [rest [Htr [_ [Htail [_ [Hrest Hj]]]]]]].
  exists tail, rest. split; [exact Htr|]. split; [|auto].
  destruct Htail as [[-> _] | [[-> _] | [[-> _] | [r [Hr [_ [-> _]]]]]]]; auto.
  right; right; right. exists r. auto.
Qed.

(** A run of two iterations with [pthread_max = 1]: the first one runs in
    full, the harness then asks to stop. *)
Definition envs_two_iterations : list iter_env := [env_ok; env_stopped].

(** C5 (counterexample): in the second iteration of that run, the reset
    [thread_terminate = false] of line 235 changes the flag from true back to
    false while the controlling thread does not hold the mutex. *)
Theorem flag_reset_outside_mutex :
  ~ (forall max_ops pthread_max envs s0 s ts,
       run max_ops pthread_max envs s0 = Some (s, ts) -> thread_terminate s0 = false ->
       Forall (fun p => snd p = true) (flag_transitions false false (concat ts))).
Proof.
  intros H. specialize (H 0 1%nat envs_two_iterations (initial_state 0)).
  destruct (run 0 1 envs_two_iterations (initial_state 0)) as [[s ts]|] eqn:Hr;
    [|vm_compute in Hr; discriminate].
  specialize (H s ts eq_refl eq_refl).
  vm_compute in Hr. injection Hr as <- <-.
  vm_compute in H. inversion H as [|x l Hx Hl]. inversion Hl as [|x' l' Hx' Hl'].
  discriminate Hx'.
Qed.

(** C5 (amended): over a whole run, starting with the mutex released and
    with a harness stop flag that, once read as cleared, stays cleared: every
    set of [thread_terminate] to true happens with the mutex held and every
    reset to false without it; each iteration starts with the reset and then
    sets the flag at most once, so within an iteration it only goes from
    false to true; and an iteration followed by another one has joined every
    thread it created, so the next reset comes after the previous reap. *)
Theorem termination_flag_discipline (max_ops : Z) (pthread_max : nat) (envs : list iter_env)
    (s0 s : estate) (ts : list (list event))
    (Hmono : forall e, In e envs -> forall j, ie_keep e j = false -> ie_keep_end e = false)
    (Hrun : run max_ops pthread_max envs s0 = Some (s, ts)) :
  Forall flag_write_under_rule (flag_writes_held false (concat ts))
  /\ Forall (fun t => exists t', t = EResetFlag :: t' /\ (flag_writes t' = [] \/ flag_writes t' = [ESetFlag])) ts
  /\ (forall k t, ts !! k = Some t -> is_Some (ts !! S k) -> created_slots t = joined_slots t).
Proof.
  revert s0 ts Hrun; induction envs as [|e es IH]; intros s0 ts Hrun; [discriminate|].
  simpl in Hrun.
  pose proof (iteration_flags max_ops pthread_max e s0) as Hfl.
  pose proof (iteration_created_joined max_ops pthread_max e s0) as Hcj.
  destruct (iteration max_ops pthread_max e s0) as [s1 t].
  destruct (spawn_loop max_ops e pthread_max 0 (set_terminate false s0)) as [[i s1'] tsp].
  destruct Hfl as [[t' [Ht' Hfw]] [Hfh Hheld]].
  (* facts on [t ++ [EKeepStressing k]] *)
  assert (Hext : forall k, flag_writes_held false (t ++ [EKeepStressing k]) = flag_writes_held false t
                    /\ held_after false (t ++ [EKeepStressing k]) = held_after false t
                    /\ created_slots (t ++ [EKeepStressing k]) = created_slots t
                    /\ joined_slots (t ++ [EKeepStressing k]) = joined_slots t
                    /\ t ++ [EKeepStressing k] = EResetFlag :: (t' ++ [EKeepStressing k])
                    /\ flag_writes (t' ++ [EKeepStressing k]) = flag_writes t').
  { intros k. split; [|split; [|split; [|split; [|split]]]].
    - rewrite flag_writes_held_app. simpl. apply app_nil_r.
    - rewrite held_after_app. reflexivity.
    - rewrite created_slots_app. simpl. apply app_nil_r.
    - rewrite joined_slots_app. simpl. apply app_nil_r.
    - rewrite Ht'. reflexivity.
    - rewrite flag_writes_app. simpl. apply app_nil_r. }
  destruct (ok s1) eqn:Hok.
  - destruct (keep_stressing max_ops e s1) eqn:Hk.
    + destruct (run max_ops pthread_max es s1) as [[s2 ts']|] eqn:Hr; [|discriminate].
      injection Hrun as <- <-.
      destruct (IH (fun e' He' => Hmono e' (or_intror He')) s1 ts' Hr) as [IH1 [IH2 IH3]].
      destruct (Hext true) as [E1 [E2 [E3 [E4 [E5 E6]]]]].
      split; [|split].
      * simpl. rewrite flag_writes_held_app, E1, E2, (Hheld eq_refl).
        apply Forall_app; split; [exact Hfh|exact IH1].
      * constructor; [|exact IH2]. exists (t' ++ [EKeepStressing true]). rewrite E6. auto.
      * intros [|k] u Hu Hnext.
        -- simpl in Hu. injection Hu as <-. rewrite E3, E4.
           unfold keep_stressing in Hk. apply andb_true_iff in Hk as [Hke _].
           destruct Hcj as [Hj [Hc | [_ Hkf]]]; [rewrite Hj, Hc; reflexivity|].
           rewrite (Hmono e (or_introl eq_refl) i Hkf) in Hke. discriminate.
        -- apply (IH3 k u Hu Hnext).
    + injection Hrun as <- <-.
      destruct (Hext false) as [E1 [E2 [E3 [E4 [E5 E6]]]]].
      split; [|split].
      * simpl. rewrite app_nil_r, E1. exact Hfh.
      * constructor; [|constructor]. exists (t' ++ [EKeepStressing false]). rewrite E6. auto.
      * intros [|k] u _ [x Hx]; discriminate.
  - injection Hrun as <- <-.
    split; [|split].
    + simpl. rewrite app_nil_r. exact Hfh.
    + constructor; [|constructor]. exists t'. auto.
    + intros [|k] u _ [x Hx]; discriminate.
Qed.

Lemma termination_flag_discipline_witness :
  (forall e, In e envs_two_iterations -> forall j, ie_keep e j = false -> ie_keep_end e = false) /\
  match run 0 1 envs_two_iterations (initial_state 0) with
  | Some (s, ts) =>
      Forall flag_write_under_rule (flag_writes_held false (concat ts))
      /\ Forall (fun t => exists t', t = EResetFlag :: t' /\ (flag_writes t' = [] \/ flag_writes t' = [ESetFlag])) ts
      /\ (forall k t, ts !! k = Some t -> is_Some (ts !! S k) -> created_slots t = joined_slots t)
  | None => False
  end.
Proof.
  assert (Hmono : forall e, In e envs_two_iterations -> forall j, ie_keep e j = false -> ie_keep_end e = false).
  { intros e [<- | [<- | []]] j Hj; [discriminate | reflexivity]. }
  split; [exact Hmono|].
  destruct (run 0 1 envs_two_iterations (initial_state 0)) as [[s ts]|] eqn:Hr.
  - exact (termination_flag_discipline 0 1 envs_two_iterations (initial_state 0) s ts Hmono Hr).
  - vm_compute in Hr. discriminate.
Defined.

(** One iteration in which pthread_create fails with EPERM (1), a
    non-EAGAIN error, after which the loop ends on [ok = false]. *)
Definition env_create_eperm : iter_env := with_create (fun _ => 1) env_ok.

(** C2 (failing input): the create error is reported and clears [ok], and
    [stress_pthread] still returns EXIT_SUCCESS. *)
Theorem create_error_returns_success :
  match stress_pthread 0 0 init_pmax2 [env_create_eperm] with
  | Some (st, s, ts) => st = EXIT_SUCCESS /\ ok s = false /\ In (EFail "pthread create") (concat ts)
  | None => False
  end.
Proof. vm_compute. split; [reflexivity|]. split; [reflexivity|]. right; right; right; right; left. reflexivity. Qed.

(** C7: when the alternate signal stack cannot be set up, the worker
    returns at once: it writes no shared data (no tid, no increment of
    [pthread_count]), makes no robust-list call, never waits on the
    condition variable and reports no failure. *)
Theorem altstack_failure_exits_unregistered (nowt_addr : Z) (slot : nat) (w : wenv)
    (fuel : nat) (s : wshared)
    (Ha : w_altstack w < 0) :
  stress_pthread_func nowt_addr slot w fuel s = Some (s, [WSigmask; WAltstack (w_altstack w)], nowt_addr)
  /\ ~ In WIncCount [WSigmask; WAltstack (w_altstack w)]
  /\ (forall r, ~ In (WGetRobust r) [WSigmask; WAltstack (w_altstack w)])
  /\ (forall b, ~ In (WReadFlag b) [WSigmask; WAltstack (w_altstack w)])
  /\ (forall r, ~ In (WCondWait r) [WSigmask; WAltstack (w_altstack w)])
  /\ (forall m, ~ In (WFail m) [WSigmask; WAltstack (w_altstack w)]).
Proof.
  unfold stress_pthread_func. apply Z.ltb_lt in Ha. rewrite Ha. simpl.
  repeat split; intros; simpl; intuition discriminate.
Qed.

Definition wenv_ok : wenv := {|
  w_altstack := 0; w_gettid := 1234; w_get_robust := 0; w_get_errno := 0;
  w_set_robust := 0; w_set_errno := 0; w_spin_lock := 0; w_spin_unlock := 0;
  w_mutex_lock := 0; w_flag := fun k => (1 <=? k)%nat; w_wait := fun _ => 0;
  w_mutex_unlock := 0; w_open := 3 |}.

Definition wenv_no_altstack : wenv := {|
  w_altstack := -1; w_gettid := 1234; w_get_robust := 0; w_get_errno := 0;
  w_set_robust := 0; w_set_errno := 0; w_spin_lock := 0; w_spin_unlock := 0;
  w_mutex_lock := 0; w_flag := fun _ => true; w_wait := fun _ => 0;
  w_mutex_unlock := 0; w_open := 3 |}.

Definition wshared0 : wshared := {| pthread_count := 0; tids := [0; 0; 0] |}.

Lemma altstack_failure_exits_unregistered_witness :
  w_altstack wenv_no_altstack < 0 /\
  stress_pthread_func 4096 1 wenv_no_altstack 5 wshared0
    = Some (wshared0, [WSigmask; WAltstack (w_altstack wenv_no_altstack)], 4096)
  /\ ~ In WIncCount [WSigmask; WAltstack (w_altstack wenv_no_altstack)]
  /\ (forall r, ~ In (WGetRobust r) [WSigmask; WAltstack (w_altstack wenv_no_altstack)])
  /\ (forall b, ~ In (WReadFlag b) [WSigmask; WAltstack (w_altstack wenv_no_altstack)])
  /\ (forall r, ~ In (WCondWait r) [WSigmask; WAltstack (w_altstack wenv_no_altstack)])
  /\ (forall m, ~ In (WFail m) [WSigmask; WAltstack (w_altstack wenv_no_altstack)]).
Proof.
  assert (Ha : w_altstack wenv_no_altstack < 0) by (simpl; lia).
  split; [exact Ha|].
  exact (altstack_failure_exits_unregistered 4096 1 wenv_no_altstack 5 wshared0 Ha).
Defined.

(** The robust-list outcomes the worker tolerates (lines 114-133): a
    failing [get_robust_list] with errno ENOSYS, or a successful one
    followed by a [set_robust_list] that succeeds or fails with ENOSYS. *)
Definition robust_tolerated (w : wenv) : bool :=
  if w_get_robust w <? 0 then w_get_errno w =? ENOSYS
  else (0 <=? w_set_robust w) || (w_set_errno w =? ENOSYS).

(** The shared data once worker [slot] has stored its tid (line 112). *)
Definition tid_stored (slot : nat) (w : wenv) (s : wshared) : wshared :=
  {| pthread_count := pthread_count s; tids := <[slot := w_gettid w]> (tids s) |}.

Definition worker_prefix (w : wenv) : list wevent :=
  [WSigmask; WAltstack (w_altstack w); WGettid (w_gettid w)].

(** C8: after the alternate stack is set up, an ENOSYS from either
    robust-list call is tolerated and the worker goes on to register and
    wait exactly as after a success; any other error ends this worker: it
    returns without incrementing [pthread_count], without taking the mutex,
    and the only shared data it has written is its own tid slot. *)
Theorem robust_probe_enosys_tolerated (nowt_addr : Z) (slot : nat) (w : wenv)
    (fuel : nat) (s : wshared)
    (Ha : 0 <= w_altstack w) :
  (robust_tolerated w = true ->
     stress_pthread_func nowt_addr slot w fuel s =
     option_map (fun '(s2, t2) => (s2, worker_prefix w ++ snd (robust_probe w) ++ t2, nowt_addr))
                (register_and_wait w fuel (tid_stored slot w s)))
  /\ (robust_tolerated w = false ->
     stress_pthread_func nowt_addr slot w fuel s =
       Some (tid_stored slot w s, worker_prefix w ++ snd (robust_probe w), nowt_addr)
     /\ pthread_count (tid_stored slot w s) = pthread_count s
     /\ (forall j, j <> slot -> tids (tid_stored slot w s) !! j = tids s !! j)
     /\ ~ In WIncCount (worker_prefix w ++ snd (robust_probe w))
     /\ (forall m, ~ In (WMutexLock m) (worker_prefix w ++ snd (robust_probe w)))).
Proof.
  assert (Hb : (w_altstack w <? 0) = false) by (apply Z.ltb_ge; exact Ha).
  unfold stress_pthread_func, robust_tolerated, robust_probe, tid_stored, worker_prefix.
  rewrite Hb. cbv zeta.
  destruct (w_get_robust w <? 0); destruct (w_get_errno w =? ENOSYS);
  destruct (w_set_robust w <? 0) eqn:Hs; destruct (w_set_errno w =? ENOSYS);
  simpl negb; cbv iota;
  try (apply Z.ltb_lt in Hs; assert (Hs' : (0 <=? w_set_robust w) = false) by (apply Z.leb_gt; lia));
  try (apply Z.ltb_ge in Hs; assert (Hs' : (0 <=? w_set_robust w) = true) by (apply Z.leb_le; lia));
  rewrite ?Hs'; simpl orb;
  split; intros Ht; try discriminate;
  try (destruct (register_and_wait _ _ _) as [[? ?]|]; reflexivity);
  (split; [reflexivity|]; split; [reflexivity|]; split;
   [intros j Hj; simpl; apply list_lookup_insert_ne; congruence|];
   split; [simpl; intuition discriminate | intros m; simpl; intuition discriminate]).
Qed.

Lemma robust_probe_enosys_tolerated_witness :
  0 <= w_altstack wenv_ok /\
  (robust_tolerated wenv_ok = true ->
     stress_pthread_func 4096 1 wenv_ok 5 wshared0 =
     option_map (fun '(s2, t2) => (s2, worker_prefix wenv_ok ++ snd (robust_probe wenv_ok) ++ t2, 4096))
                (register_and_wait wenv_ok 5 (tid_stored 1 wenv_ok wshared0)))
  /\ (robust_tolerated wenv_ok = false ->
     stress_pthread_func 4096 1 wenv_ok 5 wshared0 =
       Some (tid_stored 1 wenv_ok wshared0, worker_prefix wenv_ok ++ snd (robust_probe wenv_ok), 4096)
     /\ pthread_count (tid_stored 1 wenv_ok wshared0) = pthread_count wshared0
     /\ (forall j, j <> 1%nat -> tids (tid_stored 1 wenv_ok wshared0) !! j = tids wshared0 !! j)
     /\ ~ In WIncCount (worker_prefix wenv_ok ++ snd (robust_probe wenv_ok))
     /\ (forall m, ~ In (WMutexLock m) (worker_prefix wenv_ok ++ snd (robust_probe wenv_ok)))).
Proof.
  assert (Ha : 0 <= w_altstack wenv_ok) by (simpl; lia).
  split; [exact Ha|].
  exact (robust_probe_enosys_tolerated 4096 1 wenv_ok 5 wshared0 Ha).
Defined.

Lemma option_map_ret (n : Z) (x : option (wshared * list wevent)) (r : wshared * list wevent * Z) :
  option_map (fun '(s', t) => (s', t, n)) x = Some r -> snd r = n.
Proof. destruct x as [[? ?]|]; simpl; intros H; inversion H; reflexivity. Qed.

Lemma stress_pthread_func_ret nowt_addr slot w fuel s r :
  stress_pthread_func nowt_addr slot w fuel s = Some r -> snd r = nowt_addr.
Proof. unfold stress_pthread_func. cbv zeta. apply option_map_ret. Qed.

(** C9: whatever path a worker takes (altstack failure, robust-list
    failure, spinlock or mutex failure, condition-wait failure or normal
    completion), it returns the address of its static [nowt], the same
    non-null value for every worker. *)
Theorem worker_returns_same_sentinel (nowt_addr : Z)
    (slot1 slot2 : nat) (w1 w2 : wenv) (fuel1 fuel2 : nat) (s1 s2 : wshared)
    (r1 r2 : wshared * list wevent * Z)
    (Hnn : nowt_addr <> 0)
    (H1 : stress_pthread_func nowt_addr slot1 w1 fuel1 s1 = Some r1)
    (H2 : stress_pthread_func nowt_addr slot2 w2 fuel2 s2 = Some r2) :
  snd r1 = snd r2 /\ snd r1 = nowt_addr /\ snd r1 <> 0.
Proof.
  apply stress_pthread_func_ret in H1. apply stress_pthread_func_ret in H2.
  rewrite H1, H2. auto.
Qed.

Lemma worker_returns_same_sentinel_witness :
  stress_pthread_func 4096 0 wenv_ok 5 wshared0 =
    Some ({| pthread_count := 1; tids := [1234; 0; 0] |},
          [WSigmask; WAltstack 0; WGettid 1234; WGetRobust 0; WSetRobust 0;
           WSpinLock 0; WIncCount; WSpinUnlock 0; WMutexLock 0;
           WReadFlag false; WCondWait 0; WYield; WReadFlag true;
           WMutexUnlock 0; WOpen 3; WSetns; WClose], 4096)
  /\ stress_pthread_func 4096 1 wenv_no_altstack 5 wshared0 =
    Some (wshared0, [WSigmask; WAltstack (-1)], 4096)
  /\ (4096 : Z) = 4096 /\ (4096 : Z) <> 0.
Proof.
  assert (H1 : stress_pthread_func 4096 0 wenv_ok 5 wshared0 =
    Some ({| pthread_count := 1; tids := [1234; 0; 0] |},
          [WSigmask; WAltstack 0; WGettid 1234; WGetRobust 0; WSetRobust 0;
           WSpinLock 0; WIncCount; WSpinUnlock 0; WMutexLock 0;
           WReadFlag false; WCondWait 0; WYield; WReadFlag true;
           WMutexUnlock 0; WOpen 3; WSetns; WClose], 4096)) by reflexivity.
  assert (H2 : stress_pthread_func 4096 1 wenv_no_altstack 5 wshared0 =
    Some (wshared0, [WSigmask; WAltstack (-1)], 4096)) by reflexivity.
  assert (Hnn : (4096 : Z) <> 0) by lia.
  destruct (worker_returns_same_sentinel 4096 0 1 wenv_ok wenv_no_altstack 5 5 wshared0 wshared0
              _ _ Hnn H1 H2) as [Heq [Hv Hz]].
  split; [exact H1|]. split; [exact H2|]. split; [exact Heq | exact Hz].
Defined.

(** [limited] and [attempted] through the phases of one iteration. *)
Definition same_counts (s s' : estate) : Prop :=
  attempted s' = attempted s /\ limited s' = limited s.

Lemma spawn_loop_counts max_ops e n i s i' s' tr :
  spawn_loop max_ops e n i s = (i', s', tr) ->
  attempted s' = attempted s /\ (limited s' = limited s \/ limited s' = u64_inc (limited s)).
Proof.
  revert i s i' s' tr. induction n as [|n IH]; intros i s i' s' tr H; simpl in H.
  - inversion H; subst; auto.
  - destruct (negb (budget_left max_ops s)); [inversion H; subst; auto|].
    destruct (negb (ie_create e i =? 0)).
    + destruct (ie_create e i =? EAGAIN); inversion H; subst; simpl; auto.
    + destruct (negb (ie_keep e i)); [inversion H; subst; simpl; auto|].
      destruct (spawn_loop max_ops e n (S i) (inc_counter s)) as [[i2 s2] tr2] eqn:E.
      inversion H; subst. apply IH in E. exact E.
Qed.

Lemma poll_loop_counts e i n j s g s' tr :
  poll_loop e i n j s = (g, s', tr) -> same_counts s s'.
Proof.
  unfold same_counts. revert j s g s' tr.
  induction n as [|n IH]; intros j s g s' tr H; simpl in H.
  - inversion H; subst; auto.
  - destruct (negb (ie_poll_lock e j =? 0)); [inversion H; subst; simpl; auto|].
    destruct (negb (ie_poll_unlock e j =? 0)); [inversion H; subst; simpl; auto|].
    destruct (ie_count e j =? Z.of_nat i); [inversion H; subst; auto|].
    destruct (poll_loop e i n (S j) s) as [[g2 s2] tr2] eqn:E.
    inversion H; subst. eapply IH. exact E.
Qed.

Lemma broadcaster_counts e i s : same_counts s (fst (broadcaster e i s)).
Proof.
  unfold same_counts, broadcaster.
  destruct (negb (ie_lock e =? 0)); [simpl; auto|].
  destruct (negb (ie_broadcast e =? 0)); destruct (negb (ie_unlock e =? 0)); simpl; auto.
Qed.

Lemma reap_loop_counts e n j s : same_counts s (fst (reap_loop e n j s)).
Proof.
  unfold same_counts. revert j s. induction n as [|n IH]; intros j s; simpl; [auto|].
  destruct (negb (ie_join e j =? 0)).
  - destruct (IH (S j) (set_ok false s)) as [Ha Hl].
    destruct (reap_loop e n (S j) (set_ok false s)) as [s2 t2]. simpl in *. auto.
  - destruct (IH (S j) s) as [Ha Hl].
    destruct (reap_loop e n (S j) s) as [s2 t2]. simpl in *. auto.
Qed.

Lemma iteration_counts max_ops pthread_max e s :
  attempted (fst (iteration max_ops pthread_max e s)) = u64_inc (attempted s) /\
  (limited (fst (iteration max_ops pthread_max e s)) = limited s \/
   limited (fst (iteration max_ops pthread_max e s)) = u64_inc (limited s)).
Proof.
  unfold iteration.
  destruct (spawn_loop max_ops e pthread_max 0 (set_terminate false s)) as [[i s1] tsp] eqn:Esp.
  apply spawn_loop_counts in Esp. simpl in Esp.
  destruct (poll_loop e i 1000 0 (set_attempted (u64_inc (attempted s1)) s1)) as [[g s3] tpoll] eqn:Ep.
  apply poll_loop_counts in Ep. unfold same_counts in Ep. simpl in Ep.
  assert (Hb : same_counts s3 (fst (if g then (s3, []) else broadcaster e i s3))).
  { destruct g; [split; reflexivity | apply broadcaster_counts]. }
  destruct (if g then (s3, []) else broadcaster e i s3) as [s4 tb]. simpl in Hb.
  pose proof (reap_loop_counts e i 0 s4) as Hr.
  destruct (reap_loop e i 0 s4) as [s5 tr]. simpl in *.
  unfold same_counts in *. destruct Hb as [Hb1 Hb2]. destruct Hr as [Hr1 Hr2].
  destruct Esp as [Ea El]. destruct Ep as [Ep1 Ep2].
  rewrite Hr1, Hr2, Hb1, Hb2, Ep1, Ep2, Ea. auto.
Qed.

Lemma u64_inc_small x : 0 <= x -> x + 1 < 2 ^ 64 -> u64_inc x = x + 1.
Proof. intros H1 H2. unfold u64_inc. apply Z.mod_small. lia. Qed.

Lemma run_counts max_ops pthread_max envs s s' ts :
  run max_ops pthread_max envs s = Some (s', ts) ->
  0 <= limited s <= attempted s ->
  attempted s + Z.of_nat (length envs) < 2 ^ 64 ->
  0 <= limited s' <= attempted s' /\ attempted s < attempted s'.
Proof.
  revert s s' ts. induction envs as [|e es IH]; intros s s' ts Hrun Hinv Hlen; simpl in Hrun.
  - discriminate.
  - simpl length in Hlen.
    pose proof (iteration_counts max_ops pthread_max e s) as [Ha Hl].
    destruct (iteration max_ops pthread_max e s) as [s1 t] eqn:Eit. simpl in Ha, Hl.
    rewrite (u64_inc_small (attempted s)) in Ha by lia.
    assert (H1 : 0 <= limited s1 <= attempted s1 /\ attempted s < attempted s1).
    { destruct Hl as [Hl|Hl]; [rewrite Hl | rewrite Hl, u64_inc_small by lia]; lia. }
    destruct (ok s1).
    + destruct (keep_stressing max_ops e s1).
      * destruct (run max_ops pthread_max es s1) as [[s2 ts2]|] eqn:Er; [|discriminate].
        inversion Hrun; subst.
        destruct (IH s1 s' ts2 Er) as [Hi Hlt]; [lia | lia |]. lia.
      * inversion Hrun; subst. exact H1.
    + inversion Hrun; subst. exact H1.
Qed.

(** C10: each iteration increments [attempted] exactly once and [limited]
    at most once; so, as long as [attempted] cannot wrap (fewer than 2^64
    iterations), a run that ends with EXIT_SUCCESS has
    [0 <= limited <= attempted] and [attempted >= 1], and the percentage
    [100 * limited / attempted] it reports lies between 0 and 100. *)
Theorem limited_at_most_attempted (max_ops counter0 : Z) (ie : init_env)
    (envs : list iter_env) (s : estate) (ts : list (list event))
    (Hlen : Z.of_nat (length envs) < 2 ^ 64)
    (Hrun : stress_pthread max_ops counter0 ie envs = Some (EXIT_SUCCESS, s, ts)) :
  (forall pthread_max e x,
     attempted (fst (iteration max_ops pthread_max e x)) = u64_inc (attempted x) /\
     (limited (fst (iteration max_ops pthread_max e x)) = limited x \/
      limited (fst (iteration max_ops pthread_max e x)) = u64_inc (limited x)))
  /\ 0 <= limited s <= attempted s
  /\ 1 <= attempted s
  /\ (forall num den, limited_report s = Some (num, den) -> 0 < den /\ 0 <= num <= 100 * den).
Proof.
  unfold stress_pthread in Hrun.
  destruct (in_sighandler ie <? 0); [inversion Hrun; discriminate|].
  destruct (negb (in_cond_init ie =? 0)); [inversion Hrun; discriminate|].
  destruct (negb (in_spin_init ie =? 0)); [inversion Hrun; discriminate|].
  destruct (negb (in_mutex_init ie =? 0)); [inversion Hrun; discriminate|].
  destruct (run max_ops (Z.to_nat (pthread_max_of ie)) envs (initial_state counter0))
    as [[s1 ts1]|] eqn:Er; [|discriminate].
  inversion Hrun; subst.
  destruct (run_counts _ _ _ _ _ _ Er) as [Hi Hlt]; [simpl; lia | simpl; lia |].
  simpl in Hlt.
  split; [intros; apply iteration_counts|].
  split; [exact Hi|]. split; [lia|].
  intros num den Hrep. unfold limited_report in Hrep.
  destruct (limited s =? 0); [discriminate|]. inversion Hrep; subst. lia.
Qed.

(** Two iterations with [pthread-max = 2]: the first creates both threads,
    the second gets EAGAIN on slot 1 and ends the run. *)
Definition env_all_running : iter_env := with_count (fun _ => 2) env_ok.

Definition env_eagain_last : iter_env := {|
  ie_create := fun j => if (j =? 1)%nat then EAGAIN else 0; ie_keep := fun _ => true;
  ie_poll_lock := fun _ => 0; ie_count := fun _ => 1; ie_poll_unlock := fun _ => 0;
  ie_lock := 0; ie_tid := fun _ => 0; ie_broadcast := 0; ie_unlock := 0;
  ie_join := fun _ => 0; ie_keep_end := false |}.

Definition envs_limited : list iter_env := [env_all_running; env_eagain_last].

Definition limited_run_state : estate :=
  match stress_pthread 0 0 init_pmax2 envs_limited with
  | Some (_, s, _) => s
  | None => initial_state 0
  end.

Definition limited_run_traces : list (list event) :=
  match stress_pthread 0 0 init_pmax2 envs_limited with
  | Some (_, _, ts) => ts
  | None => []
  end.

Lemma limited_at_most_attempted_witness :
  Z.of_nat (length envs_limited) < 2 ^ 64 /\
  stress_pthread 0 0 init_pmax2 envs_limited = Some (EXIT_SUCCESS, limited_run_state, limited_run_traces) /\
  limited limited_run_state = 1 /\ attempted limited_run_state = 2 /\
  0 <= limited limited_run_state <= attempted limited_run_state /\
  1 <= attempted limited_run_state.
Proof.
  assert (Hlen : Z.of_nat (length envs_limited) < 2 ^ 64) by (simpl; lia).
  assert (Hrun : stress_pthread 0 0 init_pmax2 envs_limited =
                 Some (EXIT_SUCCESS, limited_run_state, limited_run_traces)) by (vm_compute; reflexivity).
  destruct (limited_at_most_attempted 0 0 init_pmax2 envs_limited _ _ Hlen Hrun) as [_ [Hi [Ha _]]].
  split; [exact Hlen|]. split; [exact Hrun|].
  split; [vm_compute; reflexivity|]. split; [vm_compute; reflexivity|].
  split; [exact Hi | exact Ha].
Defined.

(** ** Further properties of the controlling thread *)

Ltac forall_list :=
  repeat (apply List.Forall_nil || apply List.Forall_cons || (apply List.Forall_app; split)).

(** Whether a trace contains a [pr_fail_errno] report. *)
Definition has_fail (tr : list event) : bool := existsb is_fail tr.

(** A [pthread_create] that returned EAGAIN. *)
Definition is_eagain (ev : event) : bool :=
  match ev with ECreate _ r => r =? EAGAIN | _ => false end.

(** The [pthreads] slot an event indexes, if any. *)
Definition slot_of (ev : event) : option nat :=
  match ev with ECreate j _ | ETgkill j | EJoin j _ => Some j | _ => None end.

Definition slot_below (m : nat) (ev : event) : Prop :=
  match slot_of ev with Some j => (j < m)%nat | None => True end.

Lemma has_fail_app t1 t2 : has_fail (t1 ++ t2) = has_fail t1 || has_fail t2.
Proof. apply existsb_app. Qed.

Lemma slot_below_mono m m' ev : (m <= m')%nat -> slot_below m ev -> slot_below m' ev.
Proof. unfold slot_below. destruct (slot_of ev); [lia | auto]. Qed.

Lemma no_create_facts tr :
  Forall (fun ev => is_create ev = false) tr ->
  created_slots tr = [] /\ existsb is_eagain tr = false.
Proof.
  induction 1 as [|ev tr Hev _ [IH1 IH2]]; [auto|].
  destruct ev; simpl in Hev; try discriminate; simpl; auto.
Qed.

Lemma tgkill_loop_no_fail e n j :
  has_fail (tgkill_loop e n j) = false /\ Forall (fun ev => is_create ev = false) (tgkill_loop e n j)
  /\ Forall (slot_below (j + n)) (tgkill_loop e n j).
Proof.
  unfold has_fail. revert j. induction n as [|n IH]; intros j; simpl; [repeat constructor|].
  destruct (IH (S j)) as [H1 [H2 H3]].
  destruct (negb (ie_tid e j =? 0)); simpl.
  - split; [exact H1|]. split; [constructor; auto|].
    constructor; [unfold slot_below; simpl; lia|].
    eapply Forall_impl; [exact H3|]. intros ev. apply slot_below_mono. lia.
  - split; [exact H1|]. split; [exact H2|].
    eapply Forall_impl; [exact H3|]. intros ev. apply slot_below_mono. lia.
Qed.

Lemma spawn_loop_facts max_ops e n i s i' s' tr :
  spawn_loop max_ops e n i s = (i', s', tr) ->
  ok s' = ok s && negb (has_fail tr)
  /\ limited s' = (if existsb is_eagain tr then u64_inc (limited s) else limited s)
  /\ counter s' = Nat.iter (length (created_slots tr)) u64_inc (counter s)
  /\ (i' <= i + n)%nat /\ Forall (slot_below (i + n)) tr.
Proof.
  unfold has_fail. revert i s i' s' tr.
  induction n as [|n IH]; intros i s i' s' tr H; simpl in H.
  - inversion H; subst. simpl. rewrite andb_true_r. repeat split; auto. lia.
  - destruct (negb (budget_left max_ops s)).
    { inversion H; subst. simpl. rewrite andb_true_r. repeat split; auto. lia. }
    destruct (ie_create e i =? 0) eqn:Hc; simpl in H.
    + apply Z.eqb_eq in Hc.
      destruct (negb (ie_keep e i)).
      * inversion H; subst. simpl. rewrite Hc. simpl. rewrite andb_true_r.
        repeat split; auto. lia. forall_list; unfold slot_below; simpl; lia.
      * destruct (spawn_loop max_ops e n (S i) (inc_counter s)) as [[i2 s2] tr2] eqn:E.
        inversion H; subst. apply IH in E. destruct E as [H1 [H2 [H3 [H4 H5]]]].
        simpl in H1, H2, H3. simpl. rewrite Hc. simpl.
        split; [exact H1|]. split; [exact H2|].
        split; [rewrite H3; exact (eq_sym (Nat.iter_succ_r _ _ _))|].
        split; [lia|]. forall_list; [unfold slot_below; simpl; lia | exact I | exact I |].
        eapply Forall_impl; [exact H5|]. intros ev. apply slot_below_mono. lia.
    + destruct (ie_create e i =? EAGAIN) eqn:Ha; inversion H; subst; simpl;
        rewrite Hc, Ha; simpl; rewrite ?andb_true_r, ?andb_false_r;
        (repeat split; auto; [lia|]); forall_list; unfold slot_below; simpl; (lia || exact I).
Qed.

Lemma poll_loop_facts e i n j s g s' tr :
  poll_loop e i n j s = (g, s', tr) ->
  ok s' = ok s && negb (has_fail tr) /\ counter s' = counter s /\ limited s' = limited s
  /\ Forall (fun ev => is_create ev = false) tr /\ Forall (slot_below O) tr.
Proof.
  unfold has_fail. revert j s g s' tr.
  induction n as [|n IH]; intros j s g s' tr H; simpl in H.
  - inversion H; subst. simpl. rewrite andb_true_r. repeat split; auto.
  - destruct (negb (ie_poll_lock e j =? 0)).
    { inversion H; subst. simpl. rewrite andb_false_r.
      repeat split; auto; forall_list; reflexivity || exact I. }
    destruct (negb (ie_poll_unlock e j =? 0)).
    { inversion H; subst. simpl. rewrite andb_false_r.
      repeat split; auto; forall_list; reflexivity || exact I. }
    destruct (ie_count e j =? Z.of_nat i).
    { inversion H; subst. simpl. rewrite andb_true_r.
      repeat split; auto; forall_list; reflexivity || exact I. }
    destruct (poll_loop e i n (S j) s) as [[g2 s2] tr2] eqn:E.
    inversion H; subst. apply IH in E. destruct E as [H1 [H2 [H3 [H4 H5]]]].
    simpl. repeat split; auto; forall_list; auto; reflexivity || exact I.
Qed.

Lemma broadcaster_facts e i s :
  ok (fst (broadcaster e i s)) = ok s && negb (has_fail (snd (broadcaster e i s)))
  /\ counter (fst (broadcaster e i s)) = counter s /\ limited (fst (broadcaster e i s)) = limited s
  /\ Forall (fun ev => is_create ev = false) (snd (broadcaster e i s))
  /\ Forall (slot_below i) (snd (broadcaster e i s)).
Proof.
  destruct (tgkill_loop_no_fail e i 0) as [K1 [K2 K3]]. simpl in K3.
  unfold broadcaster.
  destruct (negb (ie_lock e =? 0)).
  { simpl. rewrite andb_false_r. repeat split; auto; forall_list; reflexivity || exact I. }
  destruct (negb (ie_broadcast e =? 0)); destruct (negb (ie_unlock e =? 0)); simpl;
    rewrite !has_fail_app, K1; simpl; rewrite ?andb_true_r, ?andb_false_r;
    (repeat split; auto); forall_list; auto; reflexivity || exact I.
Qed.

Lemma reap_loop_facts e n j s :
  joined_slots (snd (reap_loop e n j s)) = seq j n
  /\ ok (fst (reap_loop e n j s)) = ok s && forallb (fun k => ie_join e k =? 0) (seq j n)
  /\ has_fail (snd (reap_loop e n j s)) = negb (forallb (fun k => ie_join e k =? 0) (seq j n))
  /\ counter (fst (reap_loop e n j s)) = counter s /\ limited (fst (reap_loop e n j s)) = limited s
  /\ Forall (fun ev => is_create ev = false) (snd (reap_loop e n j s))
  /\ Forall (slot_below (j + n)) (snd (reap_loop e n j s)).
Proof.
  unfold has_fail. revert j s. induction n as [|n IH]; intros j s; simpl.
  - rewrite andb_true_r. repeat split; auto.
  - destruct (ie_join e j =? 0) eqn:Hj; simpl.
    + specialize (IH (S j) s). destruct (reap_loop e n (S j) s) as [s2 t2]. simpl in *.
      destruct IH as [H1 [H2 [H3 [H4 [H5 [H6 H7]]]]]].
      rewrite H1, H2, H3. repeat split; auto.
      constructor; [unfold slot_below; simpl; lia|].
      eapply Forall_impl; [exact H7|]. intros ev. apply slot_below_mono. lia.
    + specialize (IH (S j) (set_ok false s)). destruct (reap_loop e n (S j) (set_ok false s)) as [s2 t2].
      simpl in *. destruct IH as [H1 [H2 [H3 [H4 [H5 [H6 H7]]]]]].
      rewrite H1, H2. rewrite andb_false_r. repeat split; auto.
      forall_list; auto; [unfold slot_below; simpl; lia | exact I |].
      eapply Forall_impl; [exact H7|]. intros ev. apply slot_below_mono. lia.
Qed.

Lemma iteration_facts max_ops pthread_max e s :
  let '(s', tr) := iteration max_ops pthread_max e s in
  ok s' = ok s && negb (has_fail tr)
  /\ limited s' = (if existsb is_eagain tr then u64_inc (limited s) else limited s)
  /\ counter s' = counter (snd (fst (spawn_loop max_ops e pthread_max 0 (set_terminate false s))))
  /\ created_slots tr = created_slots (snd (spawn_loop max_ops e pthread_max 0 (set_terminate false s)))
  /\ Forall (slot_below pthread_max) tr.
Proof.
  unfold iteration.
  destruct (spawn_loop max_ops e pthread_max 0 (set_terminate false s)) as [[i s1] tsp] eqn:Esp.
  destruct (spawn_loop_facts _ _ _ _ _ _ _ _ Esp) as [S1 [S2 [_ [S4 S5]]]].
  simpl in S1, S2, S4, S5.
  destruct (poll_loop e i 1000 0 (set_attempted (u64_inc (attempted s1)) s1)) as [[g s3] tpoll] eqn:Ep.
  destruct (poll_loop_facts _ _ _ _ _ _ _ _ Ep) as [P1 [P2 [P3 [P4 P5]]]].
  simpl in P1, P2, P3.
  assert (B : exists s4 tb, (if g then (s3, []) else broadcaster e i s3) = (s4, tb)
              /\ ok s4 = ok s3 && negb (has_fail tb) /\ counter s4 = counter s3
              /\ limited s4 = limited s3 /\ Forall (fun ev => is_create ev = false) tb
              /\ Forall (slot_below i) tb).
  { destruct g.
    - exists s3, []. split; [reflexivity|]. simpl. rewrite andb_true_r. repeat split; auto.
    - destruct (broadcaster_facts e i s3) as [B1 [B2 [B3 [B4 B5]]]].
      exists (fst (broadcaster e i s3)), (snd (broadcaster e i s3)).
      split; [destruct (broadcaster e i s3); reflexivity|]. auto. }
  destruct B as [s4 [tb [EB [B1 [B2 [B3 [B4 B5]]]]]]]. rewrite EB.
  destruct (reap_loop_facts e i 0 s4) as [_ [R2 [R3 [R4 [R5 [R6 R7]]]]]].
  destruct (reap_loop e i 0 s4) as [s5 tr] eqn:Er. simpl in R2, R3, R4, R5, R6, R7 |- *.
  assert (Hrest : Forall (fun ev => is_create ev = false) (tpoll ++ tb ++ tr)) by (forall_list; auto).
  destruct (no_create_facts _ Hrest) as [C1 C2].
  rewrite created_slots_app in C1. rewrite created_slots_app in C1.
  rewrite existsb_app in C2. rewrite existsb_app in C2.
  split; [|split; [|split; [|split]]].
  - rewrite !has_fail_app, R2, B1, P1, S1, R3.
    destruct (ok s), (has_fail tsp), (has_fail tpoll), (has_fail tb),
      (forallb (fun k => ie_join e k =? 0) (seq 0 i)); reflexivity.
  - rewrite R5, B3, P3, S2. simpl. rewrite !existsb_app.
    destruct (existsb is_eagain tpoll); [discriminate|].
    destruct (existsb is_eagain tb); [discriminate|].
    destruct (existsb is_eagain tr); [discriminate|].
    rewrite !orb_false_r. reflexivity.
  - rewrite R4, B2, P2. reflexivity.
  - simpl. rewrite !created_slots_app.
    apply app_eq_nil in C1. destruct C1 as [-> C1]. apply app_eq_nil in C1. destruct C1 as [-> ->].
    rewrite !app_nil_r. reflexivity.
  - forall_list; try exact I.
    + exact S5.
    + eapply Forall_impl; [exact P5|]. intros ev. apply slot_below_mono. lia.
    + eapply Forall_impl; [exact B5|]. intros ev. apply slot_below_mono. lia.
    + eapply Forall_impl; [exact R7|]. intros ev. apply slot_below_mono. lia.
Qed.

(** A property of every event of every iteration carries over to the traces
    of a whole run. *)
Lemma run_forall (P : event -> Prop) max_ops pthread_max envs s s' ts :
  (forall e x, Forall P (snd (iteration max_ops pthread_max e x))) ->
  (forall k, P (EKeepStressing k)) ->
  run max_ops pthread_max envs s = Some (s', ts) -> Forall P (concat ts).
Proof.
  intros Hit Hk. revert s s' ts.
  induction envs as [|e es IH]; intros s s' ts Hrun; simpl in Hrun; [discriminate|].
  pose proof (Hit e s) as Ht.
  destruct (iteration max_ops pthread_max e s) as [s1 t] eqn:Eit. simpl in Ht.
  destruct (ok s1).
  - destruct (keep_stressing max_ops e s1).
    + destruct (run max_ops pthread_max es s1) as [[s2 ts2]|] eqn:Er; [|discriminate].
      inversion Hrun; subst. simpl. forall_list; auto. eapply IH. exact Er.
    + inversion Hrun; subst. simpl. forall_list; auto.
  - inversion Hrun; subst. simpl. rewrite app_nil_r. exact Ht.
Qed.

Lemma run_nonempty max_ops pthread_max envs s s' ts :
  run max_ops pthread_max envs s = Some (s', ts) -> ts <> [].
Proof.
  destruct envs as [|e es]; simpl; [discriminate|].
  destruct (iteration max_ops pthread_max e s) as [s1 t].
  destruct (ok s1); [destruct (keep_stressing max_ops e s1); [destruct (run max_ops pthread_max es s1) as [[s2 ts2]|]|]|];
    intros H; inversion H; discriminate.
Qed.

Lemma spawn_loop_budget max_ops e n i s i' s' tr :
  spawn_loop max_ops e n i s = (i', s', tr) ->
  0 < max_ops < 2 ^ 64 -> 0 <= counter s <= max_ops ->
  counter s' = counter s + Z.of_nat (length (created_slots tr)) /\ counter s' <= max_ops.
Proof.
  intros H Hm. revert i s i' s' tr H.
  induction n as [|n IH]; intros i s i' s' tr H Hc; simpl in H.
  - inversion H; subst. simpl. lia.
  - unfold budget_left in H.
    destruct (max_ops =? 0) eqn:H0; [apply Z.eqb_eq in H0; lia|]. simpl in H.
    destruct (counter s <? max_ops) eqn:Hlt; simpl in H.
    2:{ inversion H; subst. simpl. lia. }
    apply Z.ltb_lt in Hlt.
    assert (Hinc : counter (inc_counter s) = counter s + 1)
      by (simpl; apply u64_inc_small; lia).
    destruct (ie_create e i =? 0) eqn:Hc0; simpl in H.
    + destruct (negb (ie_keep e i)).
      * inversion H; subst. rewrite Hinc. simpl. rewrite Hc0. simpl. lia.
      * destruct (spawn_loop max_ops e n (S i) (inc_counter s)) as [[i2 s2] tr2] eqn:E.
        inversion H; subst. apply IH in E; [|lia].
        destruct E as [E1 E2]. simpl. rewrite Hc0. simpl length. lia.
    + destruct (ie_create e i =? EAGAIN); inversion H; subst; simpl; rewrite Hc0; simpl; lia.
Qed.

(** Generic accessors used to name the result of a concrete run. *)
Definition result_state (r : option (estate * list (list event))) : estate :=
  match r with Some (s, _) => s | None => initial_state 0 end.
Definition result_traces (r : option (estate * list (list event))) : list (list event) :=
  match r with Some (_, ts) => ts | None => [] end.


(** X2: the reap loop calls pthread_join on every slot [j .. j+n-1] in
    order, whether or not an earlier join failed; it clears [ok] exactly
    when some join failed, and reports a failure exactly then. *)
Theorem reap_joins_every_slot (e : iter_env) (n j : nat) (s : estate) :
  joined_slots (snd (reap_loop e n j s)) = seq j n
  /\ ok (fst (reap_loop e n j s)) = ok s && forallb (fun k => ie_join e k =? 0) (seq j n)
  /\ has_fail (snd (reap_loop e n j s)) = negb (forallb (fun k => ie_join e k =? 0) (seq j n)).
Proof.
  destruct (reap_loop_facts e n j s) as [H1 [H2 [H3 _]]]. auto.
Qed.

Definition is_lock (ev : event) : bool :=
  match ev with ELock _ => true | _ => false end.

(** The values of [pthread_count] read by the poll loop. *)
Definition read_counts (tr : list event) : list Z :=
  flat_map (fun ev => match ev with EReadCount c => [c] | _ => [] end) tr.

(** X3: the wait-for-start loop takes the mutex at most [n] times (1000 in
    [stress_pthread]); its reads of [pthread_count] are the counts of
    consecutive rounds, and when it ends without an error it has either
    done all [n] rounds without seeing [pthread_count = i], or stopped at
    the first round that saw it. *)
Theorem poll_loop_rounds (e : iter_env) (i n j : nat) (s : estate) (g : bool) (s' : estate)
    (tr : list event)
    (Hp : poll_loop e i n j s = (g, s', tr)) :
  (length (List.filter is_lock tr) <= n)%nat
  /\ read_counts tr = map (ie_count e) (seq j (length (read_counts tr)))
  /\ (g = false ->
      (Forall (fun c => c <> Z.of_nat i) (read_counts tr) /\ length (read_counts tr) = n)
      \/ (exists cs, read_counts tr = cs ++ [Z.of_nat i] /\ Forall (fun c => c <> Z.of_nat i) cs)).
Proof.
  unfold read_counts. revert j s g s' tr Hp.
  induction n as [|n IH]; intros j s g s' tr Hp; simpl in Hp.
  - inversion Hp; subst. simpl. split; [lia|]. split; [reflexivity|]. intros _. left. auto.
  - destruct (negb (ie_poll_lock e j =? 0)).
    { inversion Hp; subst. simpl. split; [lia|]. split; [reflexivity|]. discriminate. }
    destruct (negb (ie_poll_unlock e j =? 0)).
    { inversion Hp; subst. simpl. split; [lia|]. split; [reflexivity|]. discriminate. }
    destruct (ie_count e j =? Z.of_nat i) eqn:Hc.
    { inversion Hp; subst. simpl. split; [lia|]. split; [reflexivity|].
      intros _. right. exists []. apply Z.eqb_eq in Hc. rewrite Hc. auto. }
    destruct (poll_loop e i n (S j) s) as [[g2 s2] tr2] eqn:E.
    inversion Hp; subst. apply IH in E. destruct E as [E1 [E2 E3]].
    simpl. split; [lia|]. split; [rewrite E2 at 1; reflexivity|].
    intros Hg. apply Z.eqb_neq in Hc. destruct (E3 Hg) as [[F L] | [cs [Hcs F]]].
    + left. split; [constructor; auto | simpl; lia].
    + right. exists (ie_count e j :: cs). rewrite Hcs. split; [reflexivity | constructor; auto].
Qed.

Lemma poll_loop_rounds_witness :
  poll_loop env_all_running 2 1000 0 (initial_state 0)
    = (false, initial_state 0, [ELock 0; EReadCount 2; EUnlock 0]) /\
  (length (List.filter is_lock [ELock 0; EReadCount 2; EUnlock 0]) <= 1000)%nat
  /\ read_counts [ELock 0; EReadCount 2; EUnlock 0]
     = map (ie_count env_all_running) (seq 0 (length (read_counts [ELock 0; EReadCount 2; EUnlock 0])))
  /\ (false = false ->
      (Forall (fun c => c <> Z.of_nat 2) (read_counts [ELock 0; EReadCount 2; EUnlock 0])
       /\ length (read_counts [ELock 0; EReadCount 2; EUnlock 0]) = 1000%nat)
      \/ (exists cs, read_counts [ELock 0; EReadCount 2; EUnlock 0] = cs ++ [Z.of_nat 2]
                     /\ Forall (fun c => c <> Z.of_nat 2) cs)).
Proof.
  assert (Hp : poll_loop env_all_running 2 1000 0 (initial_state 0)
               = (false, initial_state 0, [ELock 0; EReadCount 2; EUnlock 0])) by reflexivity.
  split; [exact Hp|].
  exact (poll_loop_rounds env_all_running 2 1000 0 (initial_state 0) false (initial_state 0) _ Hp).
Defined.

(** X4: every slot index used by an iteration (pthread_create, tgkill,
    pthread_join) is below [pthread_max]; so when the configured maximum
    is at most MAX_PTHREAD, [stress_pthread] never indexes [pthreads]
    (an array of MAX_PTHREAD entries) out of bounds. *)
Theorem slots_within_pthreads_array (max_ops counter0 : Z) (ie : init_env)
    (envs : list iter_env) (st : Z) (s : estate) (ts : list (list event))
    (Hmax : pthread_max_of ie <= MAX_PTHREAD)
    (Hr : stress_pthread max_ops counter0 ie envs = Some (st, s, ts)) :
  (forall pthread_max e x, Forall (slot_below pthread_max) (snd (iteration max_ops pthread_max e x)))
  /\ Forall (slot_below (Z.to_nat MAX_PTHREAD)) (concat ts).
Proof.
  assert (Hit : forall pthread_max e x,
             Forall (slot_below pthread_max) (snd (iteration max_ops pthread_max e x))).
  { intros pm e x. pose proof (iteration_facts max_ops pm e x) as F.
    destruct (iteration max_ops pm e x) as [x' t]. simpl. apply F. }
  split; [exact Hit|].
  unfold stress_pthread in Hr.
  destruct (in_sighandler ie <? 0); [inversion Hr; constructor|].
  destruct (negb (in_cond_init ie =? 0)); [inversion Hr; constructor|].
  destruct (negb (in_spin_init ie =? 0)); [inversion Hr; constructor|].
  destruct (negb (in_mutex_init ie =? 0)); [inversion Hr; constructor|].
  destruct (run max_ops (Z.to_nat (pthread_max_of ie)) envs (initial_state counter0))
    as [[s1 ts1]|] eqn:Er; [|discriminate].
  inversion Hr; subst.
  assert (Hle : (Z.to_nat (pthread_max_of ie) <= Z.to_nat MAX_PTHREAD)%nat)
    by (unfold MAX_PTHREAD in *; lia).
  eapply run_forall; [| | exact Er].
  - intros e x. eapply Forall_impl; [apply Hit|]. intros ev. apply slot_below_mono. exact Hle.
  - intros k. exact I.
Qed.

Lemma slots_within_pthreads_array_witness :
  pthread_max_of init_pmax2 <= MAX_PTHREAD /\
  stress_pthread 0 0 init_pmax2 envs_two_iterations
    = Some (EXIT_SUCCESS, result_state (run 0 2 envs_two_iterations (initial_state 0)),
            result_traces (run 0 2 envs_two_iterations (initial_state 0))) /\
  Forall (slot_below (Z.to_nat MAX_PTHREAD))
    (concat (result_traces (run 0 2 envs_two_iterations (initial_state 0)))).
Proof.
  assert (Hmax : pthread_max_of init_pmax2 <= MAX_PTHREAD) by (unfold pthread_max_of, init_pmax2, MAX_PTHREAD; simpl; lia).
  assert (Hr : stress_pthread 0 0 init_pmax2 envs_two_iterations
    = Some (EXIT_SUCCESS, result_state (run 0 2 envs_two_iterations (initial_state 0)),
            result_traces (run 0 2 envs_two_iterations (initial_state 0)))) by (vm_compute; reflexivity).
  split; [exact Hmax|]. split; [exact Hr|].
  exact (proj2 (slots_within_pthreads_array 0 0 init_pmax2 envs_two_iterations _ _ _ Hmax Hr)).
Defined.

(** X5: an iteration clears [ok] exactly when it reports a failure; so a
    run started with [ok] set stops at the first iteration that reports one:
    every iteration but the last reports no failure and ended with
    keep_stressing() true, and [ok] is cleared at the end exactly when
    some failure was reported. *)
Theorem failure_ends_run (max_ops : Z) (pthread_max : nat) (envs : list iter_env)
    (s s' : estate) (ts : list (list event))
    (Hok : ok s = true)
    (Hrun : run max_ops pthread_max envs s = Some (s', ts)) :
  (forall e x, ok (fst (iteration max_ops pthread_max e x))
               = ok x && negb (has_fail (snd (iteration max_ops pthread_max e x))))
  /\ ok s' = negb (has_fail (concat ts))
  /\ (forall k t, ts !! k = Some t -> (S k < length ts)%nat ->
        has_fail t = false /\ exists t', t = t' ++ [EKeepStressing true]).
Proof.
  split.
  { intros e x. pose proof (iteration_facts max_ops pthread_max e x) as F.
    destruct (iteration max_ops pthread_max e x) as [x' t]. apply F. }
  revert s s' ts Hok Hrun.
  induction envs as [|e es IH]; intros s s' ts Hok Hrun; simpl in Hrun; [discriminate|].
  pose proof (iteration_facts max_ops pthread_max e s) as F.
  destruct (iteration max_ops pthread_max e s) as [s1 t]. destruct F as [F1 _].
  rewrite Hok in F1. simpl in F1.
  destruct (ok s1) eqn:Hok1.
  - assert (Ht : has_fail t = false) by (destruct (has_fail t); simpl in F1; congruence).
    destruct (keep_stressing max_ops e s1).
    + destruct (run max_ops pthread_max es s1) as [[s2 ts2]|] eqn:Er; [|discriminate].
      inversion Hrun; subst. destruct (IH s1 s' ts2 Hok1 Er) as [I1 I2].
      split.
      * simpl. rewrite !has_fail_app, Ht. simpl. exact I1.
      * intros [|k] t0 Hk Hlt; simpl in Hk.
        -- inversion Hk; subst. rewrite has_fail_app, Ht. split; [reflexivity|]. eauto.
        -- apply (I2 k t0 Hk). simpl in Hlt. lia.
    + inversion Hrun; subst. split.
      * simpl. rewrite !has_fail_app, Ht, Hok1. reflexivity.
      * intros k t0 _ Hlt. simpl in Hlt. lia.
  - inversion Hrun; subst. split.
    + simpl. rewrite app_nil_r, Hok1. exact F1.
    + intros k t0 _ Hlt. simpl in Hlt. lia.
Qed.

Lemma failure_ends_run_witness :
  ok (initial_state 0) = true /\
  run 0 2 [env_create_eperm] (initial_state 0)
    = Some (result_state (run 0 2 [env_create_eperm] (initial_state 0)),
            result_traces (run 0 2 [env_create_eperm] (initial_state 0))) /\
  ok (result_state (run 0 2 [env_create_eperm] (initial_state 0)))
    = negb (has_fail (concat (result_traces (run 0 2 [env_create_eperm] (initial_state 0))))).
Proof.
  assert (Hok : ok (initial_state 0) = true) by reflexivity.
  assert (Hrun : run 0 2 [env_create_eperm] (initial_state 0)
    = Some (result_state (run 0 2 [env_create_eperm] (initial_state 0)),
            result_traces (run 0 2 [env_create_eperm] (initial_state 0)))) by (vm_compute; reflexivity).
  split; [exact Hok|]. split; [exact Hrun|].
  exact (proj1 (proj2 (failure_ends_run 0 2 [env_create_eperm] _ _ _ Hok Hrun))).
Defined.

(** X6: each iteration increments the op counter once per successful
    pthread_create; with an op budget [0 < max_ops < 2^64] and a counter
    within it, a run increments the counter by exactly the number of
    threads it created and never takes it past [max_ops]. *)
Theorem run_respects_op_budget (max_ops : Z) (pthread_max : nat) (envs : list iter_env)
    (s s' : estate) (ts : list (list event))
    (Hm : 0 < max_ops < 2 ^ 64) (Hc : 0 <= counter s <= max_ops)
    (Hrun : run max_ops pthread_max envs s = Some (s', ts)) :
  (forall e x, counter (fst (iteration max_ops pthread_max e x))
     = Nat.iter (length (created_slots (snd (iteration max_ops pthread_max e x)))) u64_inc (counter x))
  /\ counter s' = counter s + Z.of_nat (length (created_slots (concat ts)))
  /\ counter s' <= max_ops.
Proof.
  split.
  { intros e x. pose proof (iteration_facts max_ops pthread_max e x) as F.
    destruct (iteration max_ops pthread_max e x) as [x' t]. destruct F as [_ [_ [F3 [F4 _]]]].
    destruct (spawn_loop max_ops e pthread_max 0 (set_terminate false x)) as [[i s1] tsp] eqn:Esp.
    destruct (spawn_loop_facts _ _ _ _ _ _ _ _ Esp) as [_ [_ [S3 _]]].
    simpl in F3, F4, S3 |- *. rewrite F3, F4. exact S3. }
  revert s s' ts Hc Hrun.
  induction envs as [|e es IH]; intros s s' ts Hc Hrun; simpl in Hrun; [discriminate|].
  pose proof (iteration_facts max_ops pthread_max e s) as F.
  destruct (iteration max_ops pthread_max e s) as [s1 t]. destruct F as [_ [_ [F3 [F4 _]]]].
  destruct (spawn_loop max_ops e pthread_max 0 (set_terminate false s)) as [[i s0] tsp] eqn:Esp.
  destruct (spawn_loop_budget _ _ _ _ _ _ _ _ Esp Hm) as [B1 B2]; [simpl; lia|].
  simpl in F3, F4, B1. rewrite <- F3, <- F4 in *.
  assert (Hk : forall k, created_slots (t ++ [EKeepStressing k]) = created_slots t)
    by (intros k; rewrite created_slots_app; simpl; apply app_nil_r).
  destruct (ok s1).
  - destruct (keep_stressing max_ops e s1).
    + destruct (run max_ops pthread_max es s1) as [[s2 ts2]|] eqn:Er; [|discriminate].
      inversion Hrun; subst. destruct (IH s1 s' ts2) as [I1 I2]; [lia | exact Er |].
      simpl. rewrite created_slots_app, Hk, length_app. lia.
    + inversion Hrun; subst. simpl. rewrite app_nil_r, Hk. lia.
  - inversion Hrun; subst. simpl. rewrite app_nil_r. lia.
Qed.

Definition envs_budget : list iter_env := [env_ok; env_ok].

Lemma run_respects_op_budget_witness :
  0 < 1 < 2 ^ 64 /\ 0 <= counter (initial_state 0) <= 1 /\
  run 1 2 envs_budget (initial_state 0)
    = Some (result_state (run 1 2 envs_budget (initial_state 0)),
            result_traces (run 1 2 envs_budget (initial_state 0))) /\
  counter (result_state (run 1 2 envs_budget (initial_state 0))) = 1 /\
  counter (result_state (run 1 2 envs_budget (initial_state 0))) <= 1.
Proof.
  assert (Hm : 0 < 1 < 2 ^ 64) by lia.
  assert (Hc : 0 <= counter (initial_state 0) <= 1) by (simpl; lia).
  assert (Hrun : run 1 2 envs_budget (initial_state 0)
    = Some (result_state (run 1 2 envs_budget (initial_state 0)),
            result_traces (run 1 2 envs_budget (initial_state 0)))) by (vm_compute; reflexivity).
  destruct (run_respects_op_budget 1 2 envs_budget _ _ _ Hm Hc Hrun) as [_ [_ H3]].
  split; [exact Hm|]. split; [exact Hc|]. split; [exact Hrun|].
  split; [vm_compute; reflexivity | exact H3].
Defined.

(** X7: an iteration increments [limited] exactly when one of its
    pthread_create calls returned EAGAIN; so, without wrap-around, a run
    adds to [limited] the number of iterations that hit EAGAIN. *)
Theorem limited_counts_eagain_iterations (max_ops : Z) (pthread_max : nat)
    (envs : list iter_env) (s s' : estate) (ts : list (list event))
    (Hl : 0 <= limited s) (Hlen : limited s + Z.of_nat (length envs) < 2 ^ 64)
    (Hrun : run max_ops pthread_max envs s = Some (s', ts)) :
  (forall e x, limited (fst (iteration max_ops pthread_max e x))
     = if existsb is_eagain (snd (iteration max_ops pthread_max e x))
       then u64_inc (limited x) else limited x)
  /\ limited s' = limited s + Z.of_nat (length (List.filter (existsb is_eagain) ts)).
Proof.
  split.
  { intros e x. pose proof (iteration_facts max_ops pthread_max e x) as F.
    destruct (iteration max_ops pthread_max e x) as [x' t]. apply F. }
  revert s s' ts Hl Hlen Hrun.
  induction envs as [|e es IH]; intros s s' ts Hl Hlen Hrun; simpl in Hrun; [discriminate|].
  simpl length in Hlen.
  pose proof (iteration_facts max_ops pthread_max e s) as F.
  destruct (iteration max_ops pthread_max e s) as [s1 t]. destruct F as [_ [F2 _]].
  assert (Hk : forall k, existsb is_eagain (t ++ [EKeepStressing k]) = existsb is_eagain t)
    by (intros k; rewrite existsb_app; simpl; apply orb_false_r).
  assert (Hs1 : limited s1 = limited s + (if existsb is_eagain t then 1 else 0)).
  { rewrite F2. destruct (existsb is_eagain t); [apply u64_inc_small; lia | lia]. }
  destruct (ok s1).
  - destruct (keep_stressing max_ops e s1).
    + destruct (run max_ops pthread_max es s1) as [[s2 ts2]|] eqn:Er; [|discriminate].
      inversion Hrun; subst.
      rewrite (IH s1 s' ts2); [| destruct (existsb is_eagain t); lia
                               | destruct (existsb is_eagain t); lia | exact Er].
      simpl. rewrite Hk, Hs1. destruct (existsb is_eagain t); simpl length; lia.
    + inversion Hrun; subst. simpl. rewrite Hk, Hs1. destruct (existsb is_eagain t); simpl; lia.
  - inversion Hrun; subst. simpl. rewrite Hs1. destruct (existsb is_eagain t); simpl; lia.
Qed.

Lemma limited_counts_eagain_iterations_witness :
  0 <= limited (initial_state 0) /\
  limited (initial_state 0) + Z.of_nat (length envs_limited) < 2 ^ 64 /\
  run 0 2 envs_limited (initial_state 0)
    = Some (result_state (run 0 2 envs_limited (initial_state 0)),
            result_traces (run 0 2 envs_limited (initial_state 0))) /\
  limited (result_state (run 0 2 envs_limited (initial_state 0)))
    = limited (initial_state 0)
      + Z.of_nat (length (List.filter (existsb is_eagain) (result_traces (run 0 2 envs_limited (initial_state 0))))).
Proof.
  assert (Hl : 0 <= limited (initial_state 0)) by (simpl; lia).
  assert (Hlen : limited (initial_state 0) + Z.of_nat (length envs_limited) < 2 ^ 64) by (simpl; lia).
  assert (Hrun : run 0 2 envs_limited (initial_state 0)
    = Some (result_state (run 0 2 envs_limited (initial_state 0)),
            result_traces (run 0 2 envs_limited (initial_state 0)))) by (vm_compute; reflexivity).
  split; [exact Hl|]. split; [exact Hlen|]. split; [exact Hrun|].
  exact (proj2 (limited_counts_eagain_iterations 0 2 envs_limited _ _ _ Hl Hlen Hrun)).
Defined.

(** Whether one of the set-up calls of [stress_pthread] fails (lines
    201-226). *)
Definition init_fails (ie : init_env) : bool :=
  (in_sighandler ie <? 0) || negb (in_cond_init ie =? 0)
  || negb (in_spin_init ie =? 0) || negb (in_mutex_init ie =? 0).

(** X8: [stress_pthread] returns EXIT_FAILURE exactly when a set-up call
    (signal handler, condition variable, spinlock or mutex initialisation)
    fails, and then runs no iteration; otherwise it runs at least one
    iteration and returns EXIT_SUCCESS. *)
Theorem stress_pthread_exit_status (max_ops counter0 : Z) (ie : init_env)
    (envs : list iter_env) (st : Z) (s : estate) (ts : list (list event))
    (Hr : stress_pthread max_ops counter0 ie envs = Some (st, s, ts)) :
  (init_fails ie = true /\ st = EXIT_FAILURE /\ s = initial_state counter0 /\ ts = [])
  \/ (init_fails ie = false /\ st = EXIT_SUCCESS /\ ts <> []).
Proof.
  unfold stress_pthread, init_fails in *.
  destruct (in_sighandler ie <? 0); [inversion Hr; left; auto|].
  destruct (negb (in_cond_init ie =? 0)); [inversion Hr; left; auto|].
  destruct (negb (in_spin_init ie =? 0)); [inversion Hr; left; auto|].
  destruct (negb (in_mutex_init ie =? 0)); [inversion Hr; left; auto|].
  destruct (run max_ops (Z.to_nat (pthread_max_of ie)) envs (initial_state counter0))
    as [[s1 ts1]|] eqn:Er; [|discriminate].
  inversion Hr; subst. right. split; [reflexivity|]. split; [reflexivity|].
  eapply run_nonempty. exact Er.
Qed.

Definition init_no_mutex : init_env := {|
  in_sighandler := 0; in_setting := Some 2; in_maximize := false; in_minimize := false;
  in_cond_init := 0; in_spin_init := 0; in_mutex_init := 12 |}.

Lemma stress_pthread_exit_status_witness :
  stress_pthread 0 0 init_no_mutex [env_ok] = Some (EXIT_FAILURE, initial_state 0, []) /\
  ((init_fails init_no_mutex = true /\ EXIT_FAILURE = EXIT_FAILURE /\ initial_state 0 = initial_state 0
    /\ @nil (list event) = [])
   \/ (init_fails init_no_mutex = false /\ EXIT_FAILURE = EXIT_SUCCESS /\ @nil (list event) <> [])).
Proof.
  assert (Hr : stress_pthread 0 0 init_no_mutex [env_ok] = Some (EXIT_FAILURE, initial_state 0, []))
    by reflexivity.
  split; [exact Hr|].
  exact (stress_pthread_exit_status 0 0 init_no_mutex [env_ok] _ _ _ Hr).
Defined.

(** ** Further properties of the worker *)

Lemma robust_probe_facts w :
  fst (robust_probe w) = negb (robust_tolerated w)
  /\ Forall (fun ev => match ev with WGetRobust _ | WSetRobust _ | WFail _ => True | _ => False end)
            (snd (robust_probe w)).
Proof.
  unfold robust_probe, robust_tolerated.
  destruct (w_get_robust w <? 0); destruct (w_get_errno w =? ENOSYS);
  destruct (w_set_robust w <? 0) eqn:Hs; destruct (w_set_errno w =? ENOSYS);
  try (apply Z.ltb_lt in Hs; assert (Hs' : (0 <=? w_set_robust w) = false) by (apply Z.leb_gt; lia));
  try (apply Z.ltb_ge in Hs; assert (Hs' : (0 <=? w_set_robust w) = true) by (apply Z.leb_le; lia));
  simpl; rewrite ?Hs'; simpl; (split; [reflexivity|]); repeat constructor.
Qed.

Lemma register_and_wait_shared w fuel s s' t :
  register_and_wait w fuel s = Some (s', t) ->
  tids s' = tids s /\
  ((w_spin_lock w = 0 /\ pthread_count s' = u64_inc (pthread_count s) /\ In WIncCount t)
   \/ (w_spin_lock w <> 0 /\ pthread_count s' = pthread_count s /\ ~ In WIncCount t)).
Proof.
  unfold register_and_wait.
  destruct (w_spin_lock w =? 0) eqn:Hl; simpl.
  2:{ intros H; inversion H; subst. split; [reflexivity|]. right.
      apply Z.eqb_neq in Hl. split; [exact Hl|]. split; [reflexivity|]. simpl; intuition discriminate. }
  apply Z.eqb_eq in Hl.
  destruct (negb (w_spin_unlock w =? 0)).
  { intros H; inversion H; subst. simpl. split; [reflexivity|]. left. auto. }
  destruct (negb (w_mutex_lock w =? 0)).
  { intros H; inversion H; subst. simpl. split; [reflexivity|]. left. auto. }
  destruct (wait_loop w fuel 0); [|discriminate].
  intros H; inversion H; subst. simpl. split; [reflexivity|]. left. auto.
Qed.




(** X10: a worker that returns has incremented [pthread_count] exactly when
    its alternate stack was set up, the robust-list probe was tolerated
    and its spinlock lock succeeded. *)
Theorem worker_registers_iff (nowt_addr : Z) (slot : nat) (w : wenv) (fuel : nat)
    (s s' : wshared) (t : list wevent) (r : Z)
    (H : stress_pthread_func nowt_addr slot w fuel s = Some (s', t, r)) :
  In WIncCount t <-> (0 <= w_altstack w /\ robust_tolerated w = true /\ w_spin_lock w = 0).
Proof.
  unfold stress_pthread_func in H. cbv zeta in H.
  destruct (w_altstack w <? 0) eqn:Ha.
  { simpl in H. inversion H; subst. apply Z.ltb_lt in Ha. simpl.
    split; [intuition discriminate | lia]. }
  apply Z.ltb_ge in Ha.
  destruct (robust_probe_facts w) as [Hd Hp].
  destruct (robust_probe w) as [die tp]. simpl in Hd, Hp.
  assert (Hnp : ~ In WIncCount tp).
  { intros Hin. rewrite List.Forall_forall in Hp. apply Hp in Hin. exact Hin. }
  destruct die.
  { simpl in H. inversion H; subst.
    assert (Ht : robust_tolerated w = false) by (destruct (robust_tolerated w); simpl in Hd; congruence).
    split.
    - simpl. intros [Hc | [Hc | [Hc | Hc]]]; try discriminate. contradiction.
    - intros [_ [Hc _]]. congruence. }
  assert (Ht : robust_tolerated w = true) by (destruct (robust_tolerated w); simpl in Hd; congruence).
  destruct (register_and_wait w fuel
              {| pthread_count := pthread_count s; tids := <[slot:=w_gettid w]> (tids s) |})
    as [[s2 t2]|] eqn:E; [|discriminate].
  simpl in H. inversion H; subst.
  apply register_and_wait_shared in E. destruct E as [_ [[Hl [_ Hin]] | [Hl [_ Hin]]]].
  - split; [intros _; auto|]. intros _. right; right; right. apply in_or_app. right. exact Hin.
  - split; [|intros [_ [_ Hc]]; contradiction].
    simpl. intros [Hx | [Hx | [Hx | Hx]]]; try discriminate.
    apply in_app_or in Hx. destruct Hx; contradiction.
Qed.

Lemma worker_registers_iff_witness :
  stress_pthread_func 4096 1 wenv_no_altstack 5 wshared0 =
    Some (wshared0, [WSigmask; WAltstack (-1)], 4096) /\
  (In WIncCount [WSigmask; WAltstack (-1)] <->
   (0 <= w_altstack wenv_no_altstack /\ robust_tolerated wenv_no_altstack = true
    /\ w_spin_lock wenv_no_altstack = 0)).
Proof.
  assert (H : stress_pthread_func 4096 1 wenv_no_altstack 5 wshared0 =
    Some (wshared0, [WSigmask; WAltstack (-1)], 4096)) by reflexivity.
  split; [exact H|].
  exact (worker_registers_iff 4096 1 wenv_no_altstack 5 wshared0 _ _ _ H).
Defined.

(** A successful [pthread_mutex_lock] and a call of [pthread_mutex_unlock]
    in a worker's trace. *)
Definition wlock_ok (ev : wevent) : bool :=
  match ev with WMutexLock r => r =? 0 | _ => false end.
Definition is_wunlock (ev : wevent) : bool :=
  match ev with WMutexUnlock _ => true | _ => false end.

(** Whether every [pthread_cond_wait] of a trace is made with the mutex
    held, starting with the mutex held or not as [h] says. *)
Fixpoint waits_hold (h : bool) (t : list wevent) : bool :=
  match t with
  | [] => true
  | WMutexLock r :: t' => waits_hold (if r =? 0 then true else h) t'
  | WMutexUnlock r :: t' => waits_hold (if r =? 0 then false else h) t'
  | WCondWait _ :: t' => h && waits_hold h t'
  | _ :: t' => waits_hold h t'
  end.

(** Events that neither take nor release the mutex nor wait on [cond]. *)
Definition mutex_neutral (ev : wevent) : bool :=
  match ev with WMutexLock _ | WMutexUnlock _ | WCondWait _ => false | _ => true end.
Definition mutex_free (ev : wevent) : bool :=
  match ev with WMutexLock _ | WMutexUnlock _ => false | _ => true end.

Lemma neutral_app h a b :
  Forall (fun ev => mutex_neutral ev = true) a ->
  waits_hold h (a ++ b) = waits_hold h b
  /\ List.filter is_wunlock (a ++ b) = List.filter is_wunlock b
  /\ existsb wlock_ok (a ++ b) = existsb wlock_ok b.
Proof.
  induction 1 as [|ev a Hev _ [IH1 [IH2 IH3]]]; [auto|].
  destruct ev; simpl in Hev; try discriminate; simpl; auto.
Qed.

Lemma free_app a b :
  Forall (fun ev => mutex_free ev = true) a ->
  waits_hold true (a ++ b) = waits_hold true b
  /\ List.filter is_wunlock (a ++ b) = List.filter is_wunlock b
  /\ existsb wlock_ok (a ++ b) = existsb wlock_ok b.
Proof.
  induction 1 as [|ev a Hev _ [IH1 [IH2 IH3]]]; [auto|].
  destruct ev; simpl in Hev; try discriminate; simpl; auto.
Qed.

Lemma wait_loop_free w fuel k tw :
  wait_loop w fuel k = Some tw -> Forall (fun ev => mutex_free ev = true) tw.
Proof.
  revert k tw. induction fuel as [|f IH]; intros k tw H; simpl in H; [discriminate|].
  destruct (w_flag w k); [inversion H; repeat constructor|].
  destruct (negb (w_wait w k =? 0)); [inversion H; repeat constructor|].
  destruct (wait_loop w f (S k)) as [tw'|] eqn:E; [|discriminate].
  inversion H; subst. repeat constructor. eapply IH. exact E.
Qed.

Lemma setns_neutral w : Forall (fun ev => mutex_neutral ev = true) (setns_block w).
Proof. unfold setns_block. destruct (0 <=? w_open w); repeat constructor. Qed.

Lemma register_and_wait_mutex w fuel s s' t :
  register_and_wait w fuel s = Some (s', t) ->
  waits_hold false t = true
  /\ length (List.filter is_wunlock t) = (if existsb wlock_ok t then 1 else 0)%nat.
Proof.
  unfold register_and_wait.
  destruct (negb (w_spin_lock w =? 0)); [intros H; inversion H; subst; auto|].
  destruct (negb (w_spin_unlock w =? 0)); [intros H; inversion H; subst; auto|].
  destruct (w_mutex_lock w =? 0) eqn:Hm; simpl.
  2:{ intros H; inversion H; subst. simpl. rewrite Hm. auto. }
  destruct (wait_loop w fuel 0) as [tw|] eqn:E; [|discriminate].
  intros H; inversion H; subst. simpl. rewrite Hm.
  destruct (free_app tw ((if negb (w_mutex_unlock w =? 0)
                           then [WMutexUnlock (w_mutex_unlock w); WFail "mutex unlock"]
                           else [WMutexUnlock (w_mutex_unlock w)]) ++ setns_block w)
              (wait_loop_free _ _ _ _ E)) as [F1 [F2 F3]].
  rewrite F1, F2, F3.
  destruct (neutral_app false (setns_block w) [] (setns_neutral w)) as [N1 [N2 _]].
  destruct (neutral_app true (setns_block w) [] (setns_neutral w)) as [N1' _].
  rewrite app_nil_r in N1, N1', N2.
  destruct (w_mutex_unlock w =? 0); simpl; rewrite ?N1, ?N1', ?N2; simpl; auto.
  all: destruct (w_mutex_unlock w =? 0); rewrite ?N1, ?N1'; auto.
Qed.

(** X11: every [pthread_cond_wait] of a worker is made while it holds the
    mutex, and the worker calls [pthread_mutex_unlock] exactly once if its
    [pthread_mutex_lock] succeeded and never otherwise. *)
Theorem worker_waits_holding_mutex (nowt_addr : Z) (slot : nat) (w : wenv) (fuel : nat)
    (s s' : wshared) (t : list wevent) (r : Z)
    (H : stress_pthread_func nowt_addr slot w fuel s = Some (s', t, r)) :
  waits_hold false t = true
  /\ length (List.filter is_wunlock t) = (if existsb wlock_ok t then 1 else 0)%nat.
Proof.
  unfold stress_pthread_func in H. cbv zeta in H.
  destruct (w_altstack w <? 0).
  { simpl in H. inversion H; subst. auto. }
  destruct (robust_probe_facts w) as [_ Hp].
  destruct (robust_probe w) as [die tp]. simpl in Hp.
  assert (Hnp : Forall (fun ev => mutex_neutral ev = true) tp).
  { eapply Forall_impl; [exact Hp|]. intros []; simpl; tauto. }
  destruct die.
  { simpl in H. inversion H; subst.
    destruct (neutral_app false _ [] Hnp) as [B1 [B2 B3]].
    rewrite app_nil_r in B1, B2, B3.
    simpl. rewrite B1, B2, B3. auto. }
  destruct (register_and_wait w fuel
              {| pthread_count := pthread_count s; tids := <[slot:=w_gettid w]> (tids s) |})
    as [[s2 t2]|] eqn:E; [|discriminate].
  simpl in H. inversion H; subst.
  apply register_and_wait_mutex in E.
  destruct (neutral_app false _ t2 Hnp) as [D1 [D2 D3]].
  simpl. rewrite D1, D2, D3. exact E.
Qed.

Lemma worker_waits_holding_mutex_witness :
  stress_pthread_func 4096 0 wenv_ok 5 wshared0 =
    Some ({| pthread_count := 1; tids := [1234; 0; 0] |},
          [WSigmask; WAltstack 0; WGettid 1234; WGetRobust 0; WSetRobust 0;
           WSpinLock 0; WIncCount; WSpinUnlock 0; WMutexLock 0;
           WReadFlag false; WCondWait 0; WYield; WReadFlag true;
           WMutexUnlock 0; WOpen 3; WSetns; WClose], 4096)
  /\ waits_hold false
       [WSigmask; WAltstack 0; WGettid 1234; WGetRobust 0; WSetRobust 0;
        WSpinLock 0; WIncCount; WSpinUnlock 0; WMutexLock 0;
        WReadFlag false; WCondWait 0; WYield; WReadFlag true;
        WMutexUnlock 0; WOpen 3; WSetns; WClose] = true.
Proof.
  assert (H : stress_pthread_func 4096 0 wenv_ok 5 wshared0 =
    Some ({| pthread_count := 1; tids := [1234; 0; 0] |},
          [WSigmask; WAltstack 0; WGettid 1234; WGetRobust 0; WSetRobust 0;
           WSpinLock 0; WIncCount; WSpinUnlock 0; WMutexLock 0;
           WReadFlag false; WCondWait 0; WYield; WReadFlag true;
           WMutexUnlock 0; WOpen 3; WSetns; WClose], 4096)) by reflexivity.
  split; [exact H|].
  exact (proj1 (worker_waits_holding_mutex 4096 0 wenv_ok 5 wshared0 _ _ _ H)).
Defined.

(** One pass of the while loop that found [thread_terminate] false and
    whose [pthread_cond_wait] succeeded. *)
Definition wait_round (x : nat) : list wevent := [WReadFlag false; WCondWait 0; WYield].

(** X12: the worker's wait loop leaves only after [m] passes that each
    read [thread_terminate] false and waited successfully, followed by
    either a read of [thread_terminate] true or a failing
    [pthread_cond_wait], which is reported. *)
Theorem wait_loop_exits (w : wenv) (fuel k : nat) (tw : list wevent)
    (H : wait_loop w fuel k = Some tw) :
  exists m, (m < fuel)%nat
    /\ (forall x, (k <= x < k + m)%nat -> w_flag w x = false /\ w_wait w x = 0)
    /\ ((w_flag w (k + m) = true /\ tw = flat_map wait_round (seq k m) ++ [WReadFlag true])
        \/ (w_flag w (k + m) = false /\ w_wait w (k + m) <> 0
            /\ tw = flat_map wait_round (seq k m)
                    ++ [WReadFlag false; WCondWait (w_wait w (k + m)); WFail "pthread condition wait"])).
Proof.
  revert k tw H. induction fuel as [|f IH]; intros k tw H; simpl in H; [discriminate|].
  destruct (w_flag w k) eqn:Hf.
  { inversion H; subst. exists O. rewrite Nat.add_0_r. split; [lia|]. split; [intros; lia|].
    left. auto. }
  destruct (w_wait w k =? 0) eqn:Hw; simpl in H.
  2:{ inversion H; subst. exists O. rewrite Nat.add_0_r. split; [lia|]. split; [intros; lia|].
      right. apply Z.eqb_neq in Hw. auto. }
  apply Z.eqb_eq in Hw.
  destruct (wait_loop w f (S k)) as [tw'|] eqn:E; [|discriminate].
  inversion H; subst. destruct (IH (S k) tw' E) as [m [Hm [Hall Hcase]]].
  exists (S m). split; [lia|]. split.
  - intros x Hx. destruct (Nat.eq_dec x k) as [->|Hne]; [auto|]. apply Hall. lia.
  - replace (k + S m)%nat with (S k + m)%nat by lia. rewrite Hw.
    destruct Hcase as [[Hf' ->] | [Hf' [Hw' ->]]]; [left | right]; auto.
Qed.

Lemma wait_loop_exits_witness :
  wait_loop wenv_ok 5 0 = Some [WReadFlag false; WCondWait 0; WYield; WReadFlag true] /\
  exists m, (m < 5)%nat
    /\ (forall x, (0 <= x < 0 + m)%nat -> w_flag wenv_ok x = false /\ w_wait wenv_ok x = 0)
    /\ ((w_flag wenv_ok (0 + m) = true
         /\ [WReadFlag false; WCondWait 0; WYield; WReadFlag true]
            = flat_map wait_round (seq 0 m) ++ [WReadFlag true])
        \/ (w_flag wenv_ok (0 + m) = false /\ w_wait wenv_ok (0 + m) <> 0
            /\ [WReadFlag false; WCondWait 0; WYield; WReadFlag true]
               = flat_map wait_round (seq 0 m)
                 ++ [WReadFlag false; WCondWait (w_wait wenv_ok (0 + m)); WFail "pthread condition wait"])).
Proof.
  assert (H : wait_loop wenv_ok 5 0 = Some [WReadFlag false; WCondWait 0; WYield; WReadFlag true])
    by reflexivity.
  split; [exact H|].
  exact (wait_loop_exits wenv_ok 5 0 _ H).
Defined.








